(** * start_services.py: a shallow embedding and its properties

    The script sequences the start-up of two container stacks.  It is
    embedded here as state-passing code over a small model of what it
    touches: text files, a working directory, standard input and output,
    a clock, an entropy source and the external tools it shells out to.

    Python [str] is [string]; the characters are those of [ascii], which is
    all the script's own literals use. *)

From stdpp Require Import gmap strings list fin_maps pretty.
From Stdlib Require Import Ascii String.

Open Scope string_scope.
Open Scope list_scope.
Open Scope stdpp_scope.

(** ** Python string operations *)

Module Str.

(** [s.startswith(p)] *)
Fixpoint startswith (p s : string) : bool :=
  match p with
  | EmptyString => true
  | String a p' =>
      match s with
      | EmptyString => false
      | String b s' => if Ascii.eqb a b then startswith p' s' else false
      end
  end.

(** [sub in s] *)
Fixpoint contains (sub s : string) : bool :=
  startswith sub s ||
  match s with
  | EmptyString => false
  | String _ s' => contains sub s'
  end.

(** [s[n:]] *)
Fixpoint drop (n : nat) (s : string) : string :=
  match n with
  | O => s
  | S n' => match s with EmptyString => EmptyString | String _ s' => drop n' s' end
  end.

(** [s.replace(old, new)] for the empty [old]: [new] before every character
    and at the end. *)
Fixpoint interleave (new s : string) : string :=
  match s with
  | EmptyString => new
  | String c s' => new +:+ String c (interleave new s')
  end.

(** The left-to-right scan of [s.replace(old, new)] for a non-empty [old]:
    [skip] counts the characters of a match that are still to be passed. *)
Fixpoint replace_from (old new : string) (skip : nat) (s : string) : string :=
  match s with
  | EmptyString => EmptyString
  | String c s' =>
      match skip with
      | S k => replace_from old new k s'
      | O =>
          if startswith old s
          then new +:+ replace_from old new (String.length old - 1) s'
          else String c (replace_from old new 0 s')
      end
  end.

(** [s.replace(old, new)] *)
Definition replace (old new s : string) : string :=
  match old with
  | EmptyString => interleave new s
  | String _ _ => replace_from old new 0 s
  end.

Definition is_upper (c : ascii) : bool :=
  let n := nat_of_ascii c in (65 <=? n)%nat && (n <=? 90)%nat.
Definition is_lower (c : ascii) : bool :=
  let n := nat_of_ascii c in (97 <=? n)%nat && (n <=? 122)%nat.
Definition is_digit (c : ascii) : bool :=
  let n := nat_of_ascii c in (48 <=? n)%nat && (n <=? 57)%nat.
Definition is_alnum (c : ascii) : bool := is_upper c || is_lower c || is_digit c.
Definition is_hexdigit (c : ascii) : bool :=
  let n := nat_of_ascii c in is_digit c || ((97 <=? n)%nat && (n <=? 102)%nat).

(** [c.isspace()] on the code points below 256. *)
Definition isspace (c : ascii) : bool :=
  let n := nat_of_ascii c in
  ((9 <=? n)%nat && (n <=? 13)%nat) || ((28 <=? n)%nat && (n <=? 32)%nat)
  || (n =? 133)%nat || (n =? 160)%nat.

Definition lower_char (c : ascii) : ascii :=
  if is_upper c then ascii_of_nat (nat_of_ascii c + 32) else c.

(** [s.lower()] (the letters A to Z; the others are left as they are) *)
Fixpoint lower (s : string) : string :=
  match s with
  | EmptyString => EmptyString
  | String c s' => String (lower_char c) (lower s')
  end.

Fixpoint lstrip (s : string) : string :=
  match s with
  | EmptyString => EmptyString
  | String c s' => if isspace c then lstrip s' else s
  end.

Fixpoint rstrip (s : string) : string :=
  match s with
  | EmptyString => EmptyString
  | String c s' =>
      match rstrip s' with
      | EmptyString => if isspace c then EmptyString else String c EmptyString
      | r => String c r
      end
  end.

(** [s.strip()] *)
Definition strip (s : string) : string := rstrip (lstrip s).

(** [s.split(sep)] for a one-character separator *)
Fixpoint split (sep : ascii) (s : string) : list string :=
  match s with
  | EmptyString => [EmptyString]
  | String c s' =>
      if Ascii.eqb c sep then EmptyString :: split sep s'
      else match split sep s' with
           | [] => [String c EmptyString]
           | w :: ws => String c w :: ws
           end
  end.

(** [sep.join(ws)] *)
Definition join (sep : string) (ws : list string) : string := String.concat sep ws.

Fixpoint all (f : ascii -> bool) (s : string) : bool :=
  match s with
  | EmptyString => true
  | String c s' => f c && all f s'
  end.

End Str.

(** ** The world the script runs in *)

(** A path names a regular file with its text, or a directory.  Paths are
    the strings the script builds (components joined by "/"), relative to
    the directory the script is started in, which is the empty path. *)
Inductive node :=
  | File (data : string)
  | Dir.

(** The exceptions that can reach the script; all of them are subclasses of
    Python's [Exception]. *)
Inductive exn_kind :=
  | CalledProcessError
  | FileNotFoundError
  | IsADirectoryError
  | NotADirectoryError
  | FileExistsError
  | SameFileError
  | ShutilError
  | EOFError
  | UnicodeDecodeError
  | IndexError
  | OSError.

Record exn := Exn { exn_kind_of : exn_kind; exn_str : string }.

(** What the script does to the outside, in the order it does it. *)
Inductive event :=
  | Spawn (argv : list string) (dir : list string)
  | Sleep (secs : nat)
  | Wrote (path data : string)
  | Moved (src dst : string).

(** The outcome of one external process: it ran to an exit status, with what
    it printed and the file system it left, or starting it raised. *)
Inductive completed :=
  | Exited (returncode : Z) (out : string) (fs' : gmap string node)
  | Failed (e : exn).

Record world := World {
  fs : gmap string node;
  cwd : list string;                 (* directories entered by os.chdir *)
  stdin : list string;               (* the lines still to be read *)
  stdout : list string;              (* the lines printed so far *)
  events : list event;
  now : Z;                           (* time.time(), in seconds *)
  drawn : nat;                       (* draws taken from the entropy source *)
  entropy : nat -> nat;              (* the n-th draw of the OS entropy source *)
  system : string;                   (* platform.system() *)
  utf8_decode : string -> option string;   (* bytes.decode('utf-8') *)
  tool : list event -> list string -> list string -> gmap string node -> completed
}.

Definition set_fs (f : gmap string node) (w : world) : world :=
  World f (cwd w) (stdin w) (stdout w) (events w) (now w) (drawn w)
        (entropy w) (system w) (utf8_decode w) (tool w).
Definition set_cwd (c : list string) (w : world) : world :=
  World (fs w) c (stdin w) (stdout w) (events w) (now w) (drawn w)
        (entropy w) (system w) (utf8_decode w) (tool w).
Definition set_stdin (i : list string) (w : world) : world :=
  World (fs w) (cwd w) i (stdout w) (events w) (now w) (drawn w)
        (entropy w) (system w) (utf8_decode w) (tool w).
Definition set_stdout (o : list string) (w : world) : world :=
  World (fs w) (cwd w) (stdin w) o (events w) (now w) (drawn w)
        (entropy w) (system w) (utf8_decode w) (tool w).
Definition set_events (e : list event) (w : world) : world :=
  World (fs w) (cwd w) (stdin w) (stdout w) e (now w) (drawn w)
        (entropy w) (system w) (utf8_decode w) (tool w).
Definition set_now (t : Z) (w : world) : world :=
  World (fs w) (cwd w) (stdin w) (stdout w) (events w) t (drawn w)
        (entropy w) (system w) (utf8_decode w) (tool w).
Definition set_drawn (n : nat) (w : world) : world :=
  World (fs w) (cwd w) (stdin w) (stdout w) (events w) (now w) n
        (entropy w) (system w) (utf8_decode w) (tool w).

(** ** A state and exception monad *)

Inductive result (A : Type) :=
  | Ok (a : A)
  | Raise (e : exn).
Arguments Ok {A} a.
Arguments Raise {A} e.

Definition M (A : Type) : Type := world -> result A * world.

Definition ret {A} (a : A) : M A := fun w => (Ok a, w).
Definition raise {A} (e : exn) : M A := fun w => (Raise e, w).
Definition bind {A B} (m : M A) (k : A -> M B) : M B :=
  fun w => match m w with
           | (Ok a, w') => k a w'
           | (Raise e, w') => (Raise e, w')
           end.
(** [try: m  except Exception as e: h e] *)
Definition try_except {A} (m : M A) (h : exn -> M A) : M A :=
  fun w => match m w with
           | (Ok a, w') => (Ok a, w')
           | (Raise e, w') => h e w'
           end.

#[global] Instance M_ret : MRet M := @ret.
#[global] Instance M_bind : MBind M := fun A B k m => bind m k.

Definition get {A} (f : world -> A) : M A := fun w => (Ok (f w), w).
Definition modify (f : world -> world) : M unit := fun w => (Ok tt, f w).

(** ** The operations of the Python library the script uses *)

Definition dquote : string := String (ascii_of_nat 34) EmptyString.
Definition newline : ascii := ascii_of_nat 10.

(** [os.path.join] of relative components *)
Definition path_join (parts : list string) : string := Str.join "/" parts.

(** A path of the script, seen from the start directory. *)
Definition resolve (dirs : list string) (p : string) : string :=
  path_join (dirs ++ [p]).

(** [os.path.dirname] and [os.path.basename] *)
Definition dirname (p : string) : string :=
  path_join (removelast (Str.split "/" p)).
Definition basename (p : string) : string :=
  List.last (Str.split "/" p) EmptyString.

Definition parent_is_dir (f : gmap string node) (p : string) : bool :=
  if String.eqb (dirname p) EmptyString then true
  else match f !! dirname p with
       | Some Dir => true
       | _ => false
       end.

(** [print(line)] *)
Definition print (line : string) : M unit :=
  modify (fun w => set_stdout (stdout w ++ [line]) w).

Definition log_event (e : event) : M unit :=
  modify (fun w => set_events (events w ++ [e]) w).

(** [os.path.exists(p)] *)
Definition os_path_exists (p : string) : M bool :=
  get (fun w => match fs w !! resolve (cwd w) p with
                | Some _ => true
                | None => false
                end).

(** [open(p, 'r').read()] *)
Definition open_read (p : string) : M string :=
  fun w => match fs w !! resolve (cwd w) p with
           | Some (File data) => (Ok data, w)
           | Some Dir => (Raise (Exn IsADirectoryError p), w)
           | None => (Raise (Exn FileNotFoundError p), w)
           end.

(** [open(p, 'w').write(data)]: the file is created or truncated. *)
Definition open_write (p data : string) : M unit :=
  fun w =>
    let rp := resolve (cwd w) p in
    match fs w !! rp with
    | Some Dir => (Raise (Exn IsADirectoryError p), w)
    | _ =>
        if parent_is_dir (fs w) rp
        then (Ok tt, set_events (events w ++ [Wrote rp data]) (set_fs (<[rp := File data]> (fs w)) w))
        else (Raise (Exn FileNotFoundError p), w)
    end.

(** [shutil.copyfile(src, dst)] *)
Definition shutil_copyfile (src dst : string) : M unit :=
  same ← get (fun w => String.eqb (resolve (cwd w) src) (resolve (cwd w) dst));
  present ← os_path_exists src;
  if same && present then raise (Exn SameFileError src)
  else data ← open_read src; open_write dst data.

(** The keys of the tree at [src], renamed to the tree at [dst]. *)
Definition rekey (src dst k : string) : string :=
  if String.eqb k src then dst
  else if Str.startswith (src +:+ "/") k then dst +:+ Str.drop (String.length src) k
  else k.
Definition rename_tree (src dst : string) (f : gmap string node) : gmap string node :=
  list_to_map ((fun kv => (rekey src dst (fst kv), snd kv)) <$> map_to_list f).

(** [shutil.move(src, dst)] within one file system. *)
Definition shutil_move (src dst : string) : M unit :=
  fun w =>
    let rs := resolve (cwd w) src in
    let rd := resolve (cwd w) dst in
    let real_dst := match fs w !! rd with
                    | Some Dir => rd +:+ "/" +:+ basename rs
                    | _ => rd
                    end in
    let moved f := (Ok tt, set_events (events w ++ [Moved rs real_dst])
                                      (set_fs (rename_tree rs real_dst f) w)) in
    match fs w !! rs with
    | None => (Raise (Exn FileNotFoundError src), w)
    | Some n =>
        match fs w !! rd, fs w !! real_dst with
        | Some Dir, Some _ => (Raise (Exn ShutilError real_dst), w)
        | _, None =>
            if parent_is_dir (fs w) real_dst then moved (fs w)
            else (Raise (Exn FileNotFoundError real_dst), w)
        | _, Some (File _) =>
            match n with
            | File _ => moved (delete real_dst (fs w))
            | Dir => (Raise (Exn FileExistsError real_dst), w)
            end
        | _, Some Dir => (Raise (Exn ShutilError real_dst), w)
        end
    end.

(** [os.chdir(d)] for a directory below the current one, or ".." *)
Definition os_chdir (d : string) : M unit :=
  fun w =>
    if String.eqb d ".." then (Ok tt, set_cwd (removelast (cwd w)) w)
    else match fs w !! resolve (cwd w) d with
         | Some Dir => (Ok tt, set_cwd (cwd w ++ [d]) w)
         | Some (File _) => (Raise (Exn NotADirectoryError d), w)
         | None => (Raise (Exn FileNotFoundError d), w)
         end.

(** [subprocess.run(argv, check=check)]: the exit status and the captured
    output.  The process sees the file system and may change it. *)
Definition subprocess_run (argv : list string) (check : bool) : M (Z * string) :=
  fun w =>
    let w1 := set_events (events w ++ [Spawn argv (cwd w)]) w in
    match tool w (events w) argv (cwd w) (fs w) with
    | Failed e => (Raise e, w1)
    | Exited rc out f' =>
        if check && negb (rc =? 0)%Z
        then (Raise (Exn CalledProcessError
                (Str.join " " argv +:+ " returned non-zero exit status " +:+ pretty rc)),
              set_fs f' w1)
        else (Ok (rc, out), set_fs f' w1)
    end.

(** [subprocess.check_output(argv).decode('utf-8')] *)
Definition check_output_decoded (argv : list string) : M string :=
  '(_, out) ← subprocess_run argv true;
  dec ← get utf8_decode;
  match dec out with
  | Some text => mret text
  | None => raise (Exn UnicodeDecodeError out)
  end.

(** [time.sleep(secs)] *)
Definition time_sleep (secs : nat) : M unit :=
  log_event (Sleep secs);;
  modify (fun w => set_now (now w + Z.of_nat secs)%Z w).

(** [int(time.time())] *)
Definition time_time : M Z := get now.

Definition read_line : M string :=
  fun w => match stdin w with
           | line :: rest => (Ok line, set_stdin rest w)
           | [] => (Raise (Exn EOFError "EOF when reading a line"), w)
           end.

(** [input(prompt)] *)
Definition input (prompt : string) : M string :=
  print prompt;; read_line.

(** [platform.system()] *)
Definition platform_system : M string := get system.

(** [string.ascii_letters + string.digits] *)
Definition alphabet : string :=
  "abcdefghijklmnopqrstuvwxyzABCDEFGHIJKLMNOPQRSTUVWXYZ0123456789".

(** One draw from the entropy source, reduced below [bound]. *)
Definition randbelow (bound : nat) : M nat :=
  fun w => (Ok (entropy w (drawn w) mod bound), set_drawn (S (drawn w)) w).

(** [secrets.choice(seq)] *)
Definition secrets_choice (seq : string) : M ascii :=
  i ← randbelow (String.length seq);
  match String.get i seq with
  | Some c => mret c
  | None => raise (Exn IndexError "Cannot choose from an empty sequence")
  end.

Definition hexdigits : string := "0123456789abcdef".
Definition hexdigit (n : nat) : ascii :=
  match String.get n hexdigits with
  | Some c => c
  | None => "0"%char
  end.
Definition hex_of_byte (b : nat) : string :=
  String (hexdigit (b / 16)) (String (hexdigit (b mod 16)) EmptyString).

(** [secrets.token_hex(nbytes)] *)
Fixpoint secrets_token_hex (nbytes : nat) : M string :=
  match nbytes with
  | O => mret EmptyString
  | S n =>
      b ← randbelow 256;
      rest ← secrets_token_hex n;
      mret (hex_of_byte b +:+ rest)
  end.

(** [str(e)] *)
Definition str_exn (e : exn) : string := exn_str e.

(** ** The script *)

(** [run_command(cmd)] *)
Definition run_command (cmd : list string) : M unit :=
  print ("Running: " +:+ Str.join " " cmd);;
  subprocess_run cmd true;;
  mret tt.

(** [generate_secret(length)] *)
Fixpoint generate_secret (length : nat) : M string :=
  match length with
  | O => mret EmptyString
  | S n =>
      c ← secrets_choice alphabet;
      rest ← generate_secret n;
      mret (String c rest)
  end.

(** [generate_hex_secret(length)] *)
Definition generate_hex_secret (length : nat) : M string :=
  secrets_token_hex length.

Inductive generator := Alnum | Hex.

Definition generate (g : generator) : M string :=
  match g with
  | Alnum => generate_secret 32
  | Hex => generate_hex_secret 32
  end.

(** The placeholder entries of [update_env_secrets], in the order of the
    dictionary: the text looked for, the start of its replacement, and the
    generator of the value that follows it. *)
Definition placeholders : list (string * string * generator) :=
  [ ("LOGFLARE_PUBLIC_ACCESS_TOKEN=your-super-secret-and-long-logflare-key-public",
     "LOGFLARE_PUBLIC_ACCESS_TOKEN=", Hex);
    ("LOGFLARE_PRIVATE_ACCESS_TOKEN=your-super-secret-and-long-logflare-key-private",
     "LOGFLARE_PRIVATE_ACCESS_TOKEN=", Hex);
    ("VAULT_ENC_KEY=your-vault-encryption-key-32-chars-min",
     "VAULT_ENC_KEY=", Alnum);
    ("N8N_ENCRYPTION_KEY=super-secret-key",
     "N8N_ENCRYPTION_KEY=", Hex);
    ("N8N_USER_MANAGEMENT_JWT_SECRET=even-more-secret",
     "N8N_USER_MANAGEMENT_JWT_SECRET=", Hex);
    ("CLICKHOUSE_PASSWORD=super-secret-key-1",
     "CLICKHOUSE_PASSWORD=", Alnum);
    ("MINIO_ROOT_PASSWORD=super-secret-key-2",
     "MINIO_ROOT_PASSWORD=", Alnum);
    ("LANGFUSE_SALT=super-secret-key-3",
     "LANGFUSE_SALT=", Hex);
    ("NEXTAUTH_SECRET=super-secret-key-4",
     "NEXTAUTH_SECRET=", Hex);
    ("ENCRYPTION_KEY=generate-with-openssl",
     "ENCRYPTION_KEY=", Hex) ].

(** Building the [replacements] dictionary draws every value, in order. *)
Fixpoint build_replacements (table : list (string * string * generator))
  : M (list (string * string)) :=
  match table with
  | [] => mret []
  | (old_value, key_eq, g) :: table' =>
      value ← generate g;
      rest ← build_replacements table';
      mret ((old_value, key_eq +:+ value) :: rest)
  end.

(** The loop over [replacements.items()] *)
Fixpoint apply_replacements (replacements : list (string * string))
    (content : string) (updated : bool) : M (string * bool) :=
  match replacements with
  | [] => mret (content, updated)
  | (old_value, new_value) :: rest =>
      if Str.contains old_value content
      then print ("Updated: " +:+ hd EmptyString (Str.split "=" old_value));;
           apply_replacements rest (Str.replace old_value new_value content) true
      else apply_replacements rest content updated
  end.

(** [update_env_secrets()] *)
Definition update_env_secrets : M unit :=
  let env_path := ".env" in
  present ← os_path_exists env_path;
  if negb present then print "Warning: .env file not found"
  else
    print "Checking and updating environment secrets...";;
    content ← open_read env_path;
    replacements ← build_replacements placeholders;
    '(content', updated) ← apply_replacements replacements content false;
    if updated : bool
    then open_write env_path content';;
         print "Environment secrets updated successfully!"
    else print "Environment secrets are already configured.".

(** [clean_supabase_database()] *)
Definition clean_supabase_database : M bool :=
  let db_data_path := path_join ["supabase"; "docker"; "volumes"; "db"; "data"] in
  present ← os_path_exists db_data_path;
  if present : bool
  then
    print "Found existing Supabase database data.";;
    print "If you're experiencing analytics startup issues, you may need to reset the database.";;
    print "This will delete all existing data and reinitialize the database.";;
    line ← input "Reset Supabase database? (y/N): ";
    let response := Str.strip (Str.lower line) in
    if String.eqb response "y"
    then
      print "Backing up and removing database data...";;
      t ← time_time;
      let backup_path := db_data_path +:+ ".backup." +:+ pretty t in
      shutil_move db_data_path backup_path;;
      print ("Database data backed up to: " +:+ backup_path);;
      print "Database will be reinitialized on next startup.";;
      mret true
    else mret false
  else mret false.

Definition git_clone : list string :=
  ["git"; "clone"; "--filter=blob:none"; "--no-checkout";
   "https://github.com/supabase/supabase.git"].
Definition git_sparse_init : list string := ["git"; "sparse-checkout"; "init"; "--cone"].
Definition git_sparse_set : list string := ["git"; "sparse-checkout"; "set"; "docker"].
Definition git_checkout : list string := ["git"; "checkout"; "master"].
Definition git_pull : list string := ["git"; "pull"].

(** [clone_supabase_repo()] *)
Definition clone_supabase_repo : M unit :=
  present ← os_path_exists "supabase";
  if negb present
  then
    print "Cloning the Supabase repository...";;
    run_command git_clone;;
    os_chdir "supabase";;
    run_command git_sparse_init;;
    run_command git_sparse_set;;
    run_command git_checkout;;
    os_chdir ".."
  else
    print "Supabase repository already exists, updating...";;
    os_chdir "supabase";;
    run_command git_pull;;
    os_chdir "..".

(** [prepare_supabase_env()] *)
Definition prepare_supabase_env : M unit :=
  let env_path := path_join ["supabase"; "docker"; ".env"] in
  let env_example_path := path_join [".env"] in
  print "Copying .env in root to .env in supabase/docker...";;
  shutil_copyfile env_example_path env_path.

(** [if profile and profile != "none"] *)
Definition selects_profile (profile : string) : bool :=
  negb (String.eqb profile EmptyString) && negb (String.eqb profile "none").

Definition stop_cmd (profile : string) : list string :=
  ["docker"; "compose"; "-p"; "localai"]
  ++ (if selects_profile profile then ["--profile"; profile] else [])
  ++ ["-f"; "docker-compose.yml"; "down"].

(** [stop_existing_containers(profile)] *)
Definition stop_existing_containers (profile : string) : M unit :=
  print "Stopping and removing existing containers for the unified project 'localai'...";;
  run_command (stop_cmd profile).

Definition supabase_cmd (environment : string) (rebuild : bool) : list string :=
  ["docker"; "compose"; "-p"; "localai"; "-f"; "supabase/docker/docker-compose.yml"]
  ++ (if String.eqb environment "public"
      then ["-f"; "docker-compose.override.public.supabase.yml"] else [])
  ++ ["up"; "-d"]
  ++ (if rebuild then ["--build"] else []).

(** [start_supabase(environment, rebuild)] *)
Definition start_supabase (environment : string) (rebuild : bool) : M unit :=
  print "Starting Supabase services...";;
  (if rebuild
   then print "Rebuilding Supabase containers to pick up environment changes..."
   else mret tt);;
  run_command (supabase_cmd environment rebuild).

Definition local_ai_cmd (profile environment : string) (rebuild : bool) : list string :=
  ["docker"; "compose"; "-p"; "localai"]
  ++ (if selects_profile profile then ["--profile"; profile] else [])
  ++ ["-f"; "docker-compose.yml"]
  ++ (if String.eqb environment "private"
      then ["-f"; "docker-compose.override.private.yml"] else [])
  ++ (if String.eqb environment "public"
      then ["-f"; "docker-compose.override.public.yml"] else [])
  ++ ["up"; "-d"]
  ++ (if rebuild then ["--build"] else []).

(** [start_local_ai(profile, environment, rebuild)] *)
Definition start_local_ai (profile environment : string) (rebuild : bool) : M unit :=
  print "Starting local AI services...";;
  (if rebuild
   then print "Rebuilding local AI containers to pick up environment changes..."
   else mret tt);;
  run_command (local_ai_cmd profile environment rebuild).

Definition powershell_cmd : list string :=
  ["powershell"; "-Command";
   "$randomBytes = New-Object byte[] 32; "
   +:+ "(New-Object Security.Cryptography.RNGCryptoServiceProvider).GetBytes($randomBytes); "
   +:+ "$secretKey = -join ($randomBytes | ForEach-Object { " +:+ dquote +:+ "{0:x2}"
   +:+ dquote +:+ " -f $_ }); "
   +:+ "(Get-Content searxng/settings.yml) -replace 'ultrasecretkey', $secretKey | Set-Content searxng/settings.yml"].

Definition openssl_cmd : list string := ["openssl"; "rand"; "-hex"; "32"].

Definition manual_instructions : list string :=
  [ "You may need to manually generate the secret key using the commands:";
    "  - Linux: sed -i " +:+ dquote +:+ "s|ultrasecretkey|$(openssl rand -hex 32)|g"
      +:+ dquote +:+ " searxng/settings.yml";
    "  - macOS: sed -i '' " +:+ dquote +:+ "s|ultrasecretkey|$(openssl rand -hex 32)|g"
      +:+ dquote +:+ " searxng/settings.yml";
    "  - Windows (PowerShell):";
    "    $randomBytes = New-Object byte[] 32";
    "    (New-Object Security.Cryptography.RNGCryptoServiceProvider).GetBytes($randomBytes)";
    "    $secretKey = -join ($randomBytes | ForEach-Object { " +:+ dquote +:+ "{0:x2}"
      +:+ dquote +:+ " -f $_ })";
    "    (Get-Content searxng/settings.yml) -replace 'ultrasecretkey', $secretKey | Set-Content searxng/settings.yml" ].

Fixpoint print_all (lines : list string) : M unit :=
  match lines with
  | [] => mret tt
  | l :: ls => print l;; print_all ls
  end.

(** The body of the [try] of [generate_searxng_secret_key]: the substitution
    of the placeholder key by the tool of the detected platform. *)
Definition substitute_secret_key (settings_path : string) : M unit :=
  sys ← platform_system;
  (if String.eqb sys "Windows"
   then
     print "Detected Windows platform, using PowerShell to generate secret key...";;
     subprocess_run powershell_cmd true;;
     mret tt
   else if String.eqb sys "Darwin"
   then
     print "Detected macOS platform, using sed command with empty string parameter...";;
     out ← check_output_decoded openssl_cmd;
     let random_key := Str.strip out in
     subprocess_run ["sed"; "-i"; EmptyString;
                     "s|ultrasecretkey|" +:+ random_key +:+ "|g"; settings_path] true;;
     mret tt
   else
     print "Detected Linux/Unix platform, using standard sed command...";;
     out ← check_output_decoded openssl_cmd;
     let random_key := Str.strip out in
     subprocess_run ["sed"; "-i";
                     "s|ultrasecretkey|" +:+ random_key +:+ "|g"; settings_path] true;;
     mret tt);;
  print "SearXNG secret key generated successfully.".

(** The [try] around the copy of the base settings: whether the settings
    file is there afterwards ([False] stands for the [return] of the handler). *)
Definition seed_settings (settings_base_path settings_path : string) : M bool :=
  try_except
    (shutil_copyfile settings_base_path settings_path;;
     print ("Created " +:+ settings_path +:+ " from " +:+ settings_base_path);;
     mret true)
    (fun e => print ("Error creating settings.yml: " +:+ str_exn e);; mret false).

(** The [try] around the substitution, with its handler. *)
Definition patch_secret_key (settings_path : string) : M unit :=
  try_except
    (substitute_secret_key settings_path)
    (fun e =>
       print ("Error generating SearXNG secret key: " +:+ str_exn e);;
       print_all manual_instructions).

(** [generate_searxng_secret_key()] *)
Definition generate_searxng_secret_key : M unit :=
  print "Checking SearXNG settings...";;
  let settings_path := path_join ["searxng"; "settings.yml"] in
  let settings_base_path := path_join ["searxng"; "settings-base.yml"] in
  base_present ← os_path_exists settings_base_path;
  if negb base_present
  then print ("Warning: SearXNG base settings file not found at " +:+ settings_base_path)
  else
    settings_present ← os_path_exists settings_path;
    seeded ←
      (if negb settings_present
       then
         print ("SearXNG settings.yml not found. Creating from " +:+ settings_base_path +:+ "...");;
         seed_settings settings_base_path settings_path
       else
         print ("SearXNG settings.yml already exists at " +:+ settings_path);;
         mret true);
    if negb seeded then mret tt
    else
      print "Generating SearXNG secret key...";;
      patch_secret_key settings_path.

Definition active_directive : string := "cap_drop: - ALL".
Definition commented_directive : string :=
  "# cap_drop: - ALL  # Temporarily commented out for first run".

Definition docker_ps_cmd : list string :=
  ["docker"; "ps"; "--filter"; "name=searxng"; "--format"; "{{.Names}}"].
Definition docker_exec_cmd (container_name : string) : list string :=
  ["docker"; "exec"; container_name; "sh"; "-c";
   "[ -f /etc/searxng/uwsgi.ini ] && echo 'found' || echo 'not_found'"].

(** [next(c for c in containers if c)], when there is one *)
Fixpoint first_nonempty (containers : list string) : option string :=
  match containers with
  | [] => None
  | c :: cs => if String.eqb c EmptyString then first_nonempty cs else Some c
  end.

(** The detection block of [check_and_fix_docker_compose_for_searxng]: the
    value of [is_first_run] after the inner [try]. *)
Definition detect_first_run : M bool :=
  try_except
    ('(_, out) ← subprocess_run docker_ps_cmd true;
     let searxng_containers := Str.split newline (Str.strip out) in
     match first_nonempty searxng_containers with
     | Some container_name =>
         print ("Found running SearXNG container: " +:+ container_name);;
         '(_, out2) ← subprocess_run (docker_exec_cmd container_name) false;
         if Str.contains "found" out2
         then print "Found uwsgi.ini inside the SearXNG container - not first run";;
              mret false
         else print "uwsgi.ini not found inside the SearXNG container - first run";;
              mret true
     | None =>
         print "No running SearXNG container found - assuming first run";;
         mret true
     end)
    (fun e =>
       print ("Error checking Docker container: " +:+ str_exn e +:+ " - assuming first run");;
       mret true).

(** The substitution of [check_and_fix_docker_compose_for_searxng], once
    [is_first_run] and the manifest text are known. *)
Definition toggle_cap_drop (docker_compose_path : string) (is_first_run : bool)
    (content : string) : M unit :=
  if is_first_run && Str.contains active_directive content
  then
    print "First run detected for SearXNG. Temporarily removing 'cap_drop: - ALL' directive...";;
    let modified_content := Str.replace active_directive commented_directive content in
    open_write docker_compose_path modified_content;;
    print "Note: After the first run completes successfully, you should re-add 'cap_drop: - ALL' to docker-compose.yml for security reasons."
  else if negb is_first_run && Str.contains commented_directive content
  then
    print "SearXNG has been initialized. Re-enabling 'cap_drop: - ALL' directive for security...";;
    let modified_content := Str.replace commented_directive active_directive content in
    open_write docker_compose_path modified_content
  else mret tt.

(** [check_and_fix_docker_compose_for_searxng()] *)
Definition check_and_fix_docker_compose_for_searxng : M unit :=
  let docker_compose_path := "docker-compose.yml" in
  present ← os_path_exists docker_compose_path;
  if negb present
  then print ("Warning: Docker Compose file not found at " +:+ docker_compose_path)
  else
    try_except
      (content ← open_read docker_compose_path;
       is_first_run ← detect_first_run;
       toggle_cap_drop docker_compose_path is_first_run content)
      (fun e =>
         print ("Error checking/modifying docker-compose.yml for SearXNG: " +:+ str_exn e)).

(** The command line, as argparse hands it over. *)
Inductive profile_choice := cpu | gpu_nvidia | gpu_amd | none.
Inductive environment_choice := private | public.

Definition profile_name (p : profile_choice) : string :=
  match p with
  | cpu => "cpu"
  | gpu_nvidia => "gpu-nvidia"
  | gpu_amd => "gpu-amd"
  | none => "none"
  end.
Definition environment_name (e : environment_choice) : string :=
  match e with
  | private => "private"
  | public => "public"
  end.

Record args := Args {
  profile : profile_choice;
  environment : environment_choice;
  rebuild : bool;
  reset_db : bool
}.

Definition default_args : args := Args cpu private false false.

Fixpoint repeat_string (s : string) (n : nat) : string :=
  match n with
  | O => EmptyString
  | S n' => s +:+ repeat_string s n'
  end.

(** [main()], after the command line is parsed.  The pictographs of the
    closing banner are left out of its three lines. *)
Definition main (a : args) : M unit :=
  update_env_secrets;;
  (if reset_db a then clean_supabase_database;; mret tt else mret tt);;
  clone_supabase_repo;;
  prepare_supabase_env;;
  generate_searxng_secret_key;;
  check_and_fix_docker_compose_for_searxng;;
  stop_existing_containers (profile_name (profile a));;
  start_supabase (environment_name (environment a)) (rebuild a);;
  print "Waiting for Supabase to initialize...";;
  time_sleep 15;;
  start_local_ai (profile_name (profile a)) (environment_name (environment a)) (rebuild a);;
  print (String newline (repeat_string "=" 60));;
  print "Services are starting up!";;
  print "Supabase Studio: http://localhost:8000";;
  print "n8n: http://localhost:5678";;
  print "Open WebUI: http://localhost:3000";;
  print (repeat_string "=" 60).

(** ** Notions used to state the properties *)

(** *** Overlaps of texts *)

(** One of the two strings is a prefix of the other. *)
Definition agree (x y : string) : bool := Str.startswith x y || Str.startswith y x.

(** [y] starts at no position inside [x]. *)
Definition apart (x y : string) : Prop :=
  forall k, k < String.length x -> agree (Str.drop k x) y = false.

Definition apartb (x y : string) : bool :=
  forallb (fun k => negb (agree (Str.drop k x) y)) (seq 0 (String.length x)).

(** A text with its letters and digits blurred into one character: what
    is known of a fresh value before it is drawn. *)
Definition blur (c : ascii) : ascii :=
  if Str.is_alnum c then "x"%char else c.

Fixpoint smap (f : ascii -> ascii) (s : string) : string :=
  match s with
  | EmptyString => EmptyString
  | String c s' => String (f c) (smap f s')
  end.

Fixpoint xs (n : nat) : string :=
  match n with
  | O => EmptyString
  | S n' => String "x"%char (xs n')
  end.

(** [u] followed by whatever [n] letters and digits cannot agree with [o]:
    [u] itself does not, or the blurred texts do not. *)
Definition refuted (u : string) (n : nat) (o : string) : bool :=
  negb (agree u o) || negb (agree (smap blur u +:+ xs n) (smap blur o)).

(** *** The placeholder table *)

(** The text an entry of [placeholders] looks for. *)
Definition placeholder_text (entry : string * string * generator) : string :=
  fst (fst entry).

Definition key_eq (entry : string * string * generator) : string :=
  snd (fst entry).
Definition generator_of (entry : string * string * generator) : generator :=
  snd entry.

Definition value_length (g : generator) : nat :=
  match g with
  | Alnum => 32
  | Hex => 64
  end.

(** The shape of a fresh value, by its generator. *)
Definition well_shaped (g : generator) (value : string) : Prop :=
  match g with
  | Alnum => String.length value = 32 /\ Str.all Str.is_alnum value = true
  | Hex => String.length value = 64 /\ Str.all Str.is_hexdigit value = true
  end.

(** The values [build_replacements] draws in a world. *)
Definition fresh_replacements (w : world) : list (string * string) :=
  match build_replacements placeholders w with
  | (Ok replacements, _) => replacements
  | (Raise _, _) => []
  end.

(** No non-empty end of [value] is the beginning of a placeholder entry. *)
Definition tail_clean (value : string) : bool :=
  forallb (fun k =>
    forallb (fun entry => negb (Str.startswith (Str.drop k value) (placeholder_text entry)))
            placeholders)
    (seq 0 (String.length value)).

(** Two worlds in which the same values will be drawn. *)
Definition same_entropy (w w' : world) : Prop :=
  entropy w = entropy w' /\ drawn w = drawn w'.

(** A computation whose result depends on the entropy source only. *)
Definition entropy_only {A} (m : M A) : Prop :=
  forall w w', same_entropy w w' ->
    fst (m w) = fst (m w') /\ same_entropy (snd (m w)) (snd (m w')).

(** The value that follows the key in a replacement. *)
Definition fresh_value (entry : string * string * generator)
    (replacement : string * string) : string :=
  Str.drop (String.length (key_eq entry)) (snd replacement).

(** Every alphanumeric value of a list of entries with their replacements
    is [tail_clean]. *)
Definition tails_clean_on
    (pairs : list ((string * string * generator) * (string * string))) : bool :=
  forallb (fun er =>
             match generator_of (fst er) with
             | Alnum => tail_clean (fresh_value (fst er) (snd er))
             | Hex => true
             end)
          pairs.

(** Every fresh alphanumeric value of the world is [tail_clean]. *)
Definition alnum_tails_clean (w : world) : bool :=
  tails_clean_on (combine placeholders (fresh_replacements w)).

(** What the loop of [update_env_secrets] computes: the text, the flag and
    the lines it prints. *)
Fixpoint replaced_text (replacements : list (string * string)) (content : string)
  : string :=
  match replacements with
  | [] => content
  | (old_value, new_value) :: rest =>
      replaced_text rest
        (if Str.contains old_value content
         then Str.replace old_value new_value content else content)
  end.

Fixpoint replaced_any (replacements : list (string * string)) (content : string)
    (updated : bool) : bool :=
  match replacements with
  | [] => updated
  | (old_value, new_value) :: rest =>
      if Str.contains old_value content
      then replaced_any rest (Str.replace old_value new_value content) true
      else replaced_any rest content updated
  end.

Definition updated_line (old_value : string) : string :=
  "Updated: " +:+ hd EmptyString (Str.split "=" old_value).

Fixpoint updated_lines (replacements : list (string * string)) (content : string)
  : list string :=
  match replacements with
  | [] => []
  | (old_value, new_value) :: rest =>
      if Str.contains old_value content
      then updated_line old_value
           :: updated_lines rest (Str.replace old_value new_value content)
      else updated_lines rest content
  end.

(** Checks of the table, settled by evaluation. *)
Definition entries_well_formed : bool :=
  forallb (fun e =>
             Str.startswith (key_eq e) (placeholder_text e)
             && negb (Str.all Str.is_alnum (placeholder_text e))
             && match placeholder_text e with
                | String c _ => negb (Str.is_hexdigit c)
                | EmptyString => false
                end)
          placeholders.

Definition fresh_apart_from_placeholders : bool :=
  forallb (fun a => forallb (fun b =>
     forallb (fun k => refuted (Str.drop k (key_eq a)) (value_length (generator_of a))
                               (placeholder_text b))
             (seq 0 (String.length (key_eq a)))
     && forallb (fun k => refuted (key_eq a) (value_length (generator_of a))
                                  (Str.drop k (placeholder_text b)))
                (seq 0 (String.length (placeholder_text b))))
     placeholders) placeholders.

Definition placeholders_apart : bool :=
  forallb (fun a => forallb (fun b =>
     String.eqb (placeholder_text a) (placeholder_text b)
     || apartb (placeholder_text a) (placeholder_text b))
     placeholders) placeholders.

(** Where the database lives and where [clean_supabase_database] moves it. *)
Definition db_data_path : string :=
  path_join ["supabase"; "docker"; "volumes"; "db"; "data"].
Definition backup_path (t : Z) : string := db_data_path +:+ ".backup." +:+ pretty t.

(** The events that order the start-up: docker compose and the wait. *)
Definition sequencing (e : event) : bool :=
  match e with
  | Spawn (a0 :: a1 :: _) _ => String.eqb a0 "docker" && String.eqb a1 "compose"
  | Sleep _ => true
  | _ => false
  end.

(** The last four events of a complete run, issued from directory [d]. *)
Definition startup_sequence (a : args) (d : list string) : list event :=
  [ Spawn (stop_cmd (profile_name (profile a))) d;
    Spawn (supabase_cmd (environment_name (environment a)) (rebuild a)) d;
    Sleep 15;
    Spawn (local_ai_cmd (profile_name (profile a)) (environment_name (environment a))
                        (rebuild a)) d ].

(** An event that is no part of the start-up sequence. *)
Definition quiet (e : event) : Prop := sequencing e = false.

(** A computation adds events to the trace, all of them satisfying [P]. *)
Definition emits (P : event -> Prop) {A} (m : M A) : Prop :=
  forall w, exists issued,
    events (snd (m w)) = events w ++ issued /\ Forall P issued.

(** A computation ends with the start-up sequence, or with a beginning of
    it when it raises, and issues no other sequencing event. *)
Definition startup_ordered (a : args) {A} (m : M A) : Prop :=
  forall w, exists before tail d,
    events (snd (m w)) = events w ++ before ++ tail
    /\ Forall quiet before
    /\ tail `prefix_of` startup_sequence a d
    /\ (forall u, fst (m w) = Ok u -> tail = startup_sequence a d).

(** What the manifest sync issues when it clones, from directory [d]. *)
Definition clone_sequence (d : list string) : list event :=
  [ Spawn git_clone d;
    Spawn git_sparse_init (d ++ ["supabase"]);
    Spawn git_sparse_set (d ++ ["supabase"]);
    Spawn git_checkout (d ++ ["supabase"]) ].

Definition manifest_of (w : world) : option node := fs w !! "docker-compose.yml".

(** The invocations that bring a stack up. *)
Definition start_invocations (evs : list event) : list (list string) :=
  omap (fun e => match e with
                 | Spawn argv _ => if existsb (String.eqb "up") argv then Some argv else None
                 | _ => None
                 end) evs.

(** An invocation carries [--profile p]. *)
Fixpoint has_profile (p : string) (argv : list string) : bool :=
  match argv with
  | a0 :: ((a1 :: _) as rest) =>
      (String.eqb a0 "--profile" && String.eqb a1 p) || has_profile p rest
  | _ => false
  end.

(** An invocation names a manifest overlay of the private environment. *)
Definition has_private_overlay (argv : list string) : bool :=
  existsb (Str.contains "private") argv.

(** An error is raised while the container runtime is queried: starting
    [docker ps] fails, or it exits with a non-zero status, or a container is
    listed and starting [docker exec] fails. *)
Definition detection_raises (w : world) : Prop :=
  (exists e, tool w (events w) docker_ps_cmd (cwd w) (fs w) = Failed e)
  \/ (exists rc out f',
        tool w (events w) docker_ps_cmd (cwd w) (fs w) = Exited rc out f'
        /\ rc <> 0%Z)
  \/ (exists out f' name e,
        tool w (events w) docker_ps_cmd (cwd w) (fs w) = Exited 0 out f'
        /\ first_nonempty (Str.split newline (Str.strip out)) = Some name
        /\ tool w (events w ++ [Spawn docker_ps_cmd (cwd w)])
                 (docker_exec_cmd name) (cwd w) f' = Failed e).

(** *** Hosts used as concrete inputs *)

(** No container runtime is installed: starting [docker] fails. *)
Definition no_docker_tool (h : list event) (argv dir : list string)
    (f : gmap string node) : completed :=
  match argv with
  | a0 :: _ =>
      if String.eqb a0 "docker"
      then Failed (Exn FileNotFoundError "No such file or directory: 'docker'")
      else Exited 0 EmptyString f
  | [] => Failed (Exn IndexError "list index out of range")
  end.


(** Every process exits with status 0, prints nothing and touches nothing:
    in particular no search container is running. *)
Definition idle_tool (h : list event) (argv dir : list string)
    (f : gmap string node) : completed :=
  Exited 0 EmptyString f.

(** The search container is running and initialised. *)
Definition running_tool (h : list event) (argv dir : list string)
    (f : gmap string node) : completed :=
  if decide (argv = docker_ps_cmd) then Exited 0 "searxng" f
  else if decide (argv = docker_exec_cmd "searxng") then Exited 0 "found" f
  else Exited 0 EmptyString f.

(** A host on which the tools do their work: git creates the checkout, sed
    patches the settings file, no search container is running. *)
Definition working_tool (h : list event) (argv dir : list string)
    (f : gmap string node) : completed :=
  if decide (argv = git_clone) then Exited 0 EmptyString (<[resolve dir "supabase" := Dir]> f)
  else if decide (argv = git_checkout) then Exited 0 EmptyString (<[resolve dir "docker" := Dir]> f)
  else if decide (argv = openssl_cmd) then Exited 0 "5f" f
  else if decide (argv = ["sed"; "-i"; "s|ultrasecretkey|5f|g"; "searxng/settings.yml"])
  then match f !! "searxng/settings.yml" with
       | Some (File d) =>
           Exited 0 EmptyString
             (<["searxng/settings.yml" := File (Str.replace "ultrasecretkey" "5f" d)]> f)
       | _ => Exited 2 EmptyString f
       end
  else Exited 0 EmptyString f.

Definition host (f : gmap string node) (lines : list string) (t : Z)
    (rnd : nat -> nat)
    (tl : list event -> list string -> list string -> gmap string node -> completed)
  : world :=
  World f [] lines [] [] t 0 rnd "Linux" Some tl.

Definition nl : string := String newline EmptyString.

(** A manifest with the hardening directive, and two later states of it. *)
Definition manifest_active : string := "    cap_drop: - ALL".
Definition manifest_twice_commented : string :=
  "    # # cap_drop: - ALL  # Temporarily commented out for first run"
  +:+ "  # Temporarily commented out for first run".
Definition manifest_mixed : string :=
  "cap_drop: - ALL" +:+ nl +:+ manifest_twice_commented.

(** An environment file with every placeholder on a line of its own. *)
Definition env_template : string :=
  Str.join nl (map placeholder_text placeholders).

(** A line in which a second, incomplete entry follows the first. *)
Definition env_glued : string :=
  "VAULT_ENC_KEY=your-vault-encryption-key-32-chars-min"
  +:+ "AULT_ENC_KEY=your-vault-encryption-key-32-chars-min".

(** A fresh working directory. *)
Definition fresh_fs : gmap string node :=
  <[".env" := File env_template]>
  (<["searxng" := Dir]>
  (<["searxng/settings-base.yml" := File "secret_key: ultrasecretkey"]>
  (<["docker-compose.yml" := File manifest_active]> ∅))).

(** A working directory with database data. *)
Definition db_fs : gmap string node :=
  <["supabase" := Dir]>
  (<["supabase/docker" := Dir]>
  (<["supabase/docker/volumes" := Dir]>
  (<["supabase/docker/volumes/db" := Dir]>
  (<["supabase/docker/volumes/db/data" := Dir]>
  (<["supabase/docker/volumes/db/data/PG_VERSION" := File "15"]> ∅))))).

(** ** Sanity checks of the string operations *)

Example replace_ex1 : Str.replace "ab" "X" "cabbab" = "cXbX".
Proof. reflexivity. Qed.
Example replace_ex2 : Str.replace "aa" "b" "aaa" = "ba".
Proof. reflexivity. Qed.
Example replace_ex3 : Str.replace EmptyString "X" "abc" = "XaXbXcX".
Proof. reflexivity. Qed.
Example strip_ex : Str.strip (Str.lower "  Y ") = "y".
Proof. reflexivity. Qed.
Example split_ex : Str.split "=" "K=v=w" = ["K"; "v"; "w"].
Proof. reflexivity. Qed.


(** ** Facts about the string operations *)

#[local] Arguments String.append !_ _ / : simpl nomatch.

Module StrFacts.
Import Str.

Lemma sapp_nil_r (s : string) : s +:+ EmptyString = s.
Proof. induction s as [|c s' IH]; simpl; [reflexivity | now rewrite IH]. Qed.

Lemma sapp_assoc (a b c : string) : (a +:+ b) +:+ c = a +:+ (b +:+ c).
Proof. induction a as [|x a IH]; simpl; [reflexivity | now rewrite IH]. Qed.

Lemma slength_app (a b : string) :
  String.length (a +:+ b) = String.length a + String.length b.
Proof. induction a as [|x a IH]; simpl; [reflexivity | now rewrite IH]. Qed.

Lemma drop_nil (n : nat) : drop n EmptyString = EmptyString.
Proof. destruct n; reflexivity. Qed.

Lemma drop_app_length (p t : string) : drop (String.length p) (p +:+ t) = t.
Proof. induction p as [|x p IH]; simpl; [reflexivity | exact IH]. Qed.

Lemma drop_app_lt (k : nat) (a b : string) :
  k <= String.length a -> drop k (a +:+ b) = drop k a +:+ b.
Proof.
  revert a; induction k as [|k IH]; intros a Hk; [reflexivity|].
  destruct a as [|x a]; simpl in *; [lia | apply IH; lia].
Qed.

Lemma drop_app_ge (k : nat) (a b : string) :
  String.length a <= k -> drop k (a +:+ b) = drop (k - String.length a) b.
Proof.
  revert k; induction a as [|x a IH]; intros k Hk; simpl in *.
  - now rewrite Nat.sub_0_r.
  - destruct k as [|k]; [lia|]. simpl. apply IH; lia.
Qed.

Lemma length_drop (k : nat) (s : string) :
  String.length (drop k s) = String.length s - k.
Proof.
  revert s; induction k as [|k IH]; intros s; simpl; [lia|].
  destruct s as [|c s]; simpl; [reflexivity | apply IH].
Qed.

Lemma drop_drop (j k : nat) (s : string) : drop j (drop k s) = drop (k + j) s.
Proof.
  revert s; induction k as [|k IH]; intros s; simpl; [reflexivity|].
  destruct s as [|c s]; [apply drop_nil | apply IH].
Qed.

(** *** [startswith] *)

Lemma startswith_app (p t : string) : startswith p (p +:+ t) = true.
Proof.
  induction p as [|x p IH]; simpl; [reflexivity|].
  now rewrite Ascii.eqb_refl.
Qed.

Lemma startswith_inv (p s : string) :
  startswith p s = true -> s = p +:+ drop (String.length p) s.
Proof.
  revert s; induction p as [|x p IH]; intros s H; simpl in *; [reflexivity|].
  destruct s as [|y s]; [discriminate|].
  destruct (Ascii.eqb_spec x y) as [->|]; [|discriminate].
  simpl. f_equal. now apply IH.
Qed.

Lemma startswith_iff (p s : string) :
  startswith p s = true <-> exists t, s = p +:+ t.
Proof.
  split.
  - intros H. eexists. now apply startswith_inv.
  - intros [t ->]. apply startswith_app.
Qed.

Lemma startswith_nil_r (p : string) :
  startswith p EmptyString = true -> p = EmptyString.
Proof. destruct p; [reflexivity | discriminate]. Qed.

Lemma startswith_length (p s : string) :
  startswith p s = true -> String.length p <= String.length s.
Proof.
  intros H. apply startswith_inv in H.
  assert (String.length s = String.length (p +:+ drop (String.length p) s)) as E
    by (f_equal; exact H).
  rewrite slength_app in E. lia.
Qed.

Lemma startswith_trans (a b c : string) :
  startswith a b = true -> startswith b c = true -> startswith a c = true.
Proof.
  rewrite !startswith_iff. intros [t ->] [u ->].
  exists (t +:+ u). apply sapp_assoc.
Qed.

(** Two prefixes of one string: the shorter is a prefix of the longer. *)
Lemma startswith_common (a b s : string) :
  startswith a s = true -> startswith b s = true ->
  String.length a <= String.length b -> startswith a b = true.
Proof.
  revert b s; induction a as [|x a IH]; intros b s Ha Hb Hl; [reflexivity|].
  destruct s as [|z s]; [discriminate|].
  destruct b as [|y b]; simpl in *; [lia|].
  destruct (Ascii.eqb_spec x z) as [->|]; [|discriminate].
  destruct (Ascii.eqb_spec y z) as [->|]; [|discriminate].
  rewrite Ascii.eqb_refl. apply (IH b s); auto. lia.
Qed.

Lemma startswith_all (f : ascii -> bool) (p s : string) :
  startswith p s = true -> all f s = true -> all f p = true.
Proof.
  revert s; induction p as [|x p IH]; intros s H Hs; [reflexivity|].
  destruct s as [|y s]; [discriminate|]. simpl in *.
  destruct (Ascii.eqb_spec x y) as [->|]; [|discriminate].
  apply andb_true_iff in Hs as [-> Hs]. simpl. eauto.
Qed.

Lemma all_drop (f : ascii -> bool) (k : nat) (s : string) :
  all f s = true -> all f (drop k s) = true.
Proof.
  revert s; induction k as [|k IH]; intros s H; [exact H|].
  destruct s as [|c s]; [reflexivity|]. simpl in *.
  apply andb_true_iff in H as [_ H]. now apply IH.
Qed.

Lemma all_app (f : ascii -> bool) (a b : string) :
  all f (a +:+ b) = all f a && all f b.
Proof.
  induction a as [|x a IH]; simpl; [reflexivity|].
  now rewrite IH, andb_assoc.
Qed.

(** *** [contains] *)

Lemma contains_startswith (o s : string) :
  startswith o s = true -> contains o s = true.
Proof. intros H. destruct s; simpl; rewrite H; reflexivity. Qed.

Lemma contains_cons (o : string) (c : ascii) (s : string) :
  contains o (String c s) = startswith o (String c s) || contains o s.
Proof. reflexivity. Qed.

Lemma contains_app_r (o u t : string) :
  contains o t = true -> contains o (u +:+ t) = true.
Proof.
  intros H. induction u as [|x u IH]; [exact H|].
  simpl append. rewrite contains_cons, IH. apply orb_true_r.
Qed.

Lemma contains_nil (s : string) : contains EmptyString s = true.
Proof. destruct s; reflexivity. Qed.

(** An occurrence in [u +:+ t] starts inside [u] or lies in [t]. *)
Lemma contains_app_inv (o u t : string) :
  contains o (u +:+ t) = true ->
  (exists k, k < String.length u /\ startswith o (drop k u +:+ t) = true)
  \/ contains o t = true.
Proof.
  induction u as [|x u IH]; intros H; [now right|].
  simpl append in H. rewrite contains_cons in H.
  apply orb_true_iff in H as [H|H].
  - left. exists 0. split; [simpl; lia | exact H].
  - destruct (IH H) as [(k & Hk & Hs)|Ht]; [left|now right].
    exists (S k). split; [simpl; lia | exact Hs].
Qed.

Lemma contains_false_cons (o : string) (c : ascii) (s : string) :
  contains o (String c s) = false ->
  startswith o (String c s) = false /\ contains o s = false.
Proof. rewrite contains_cons. apply orb_false_iff. Qed.

(** *** The scan of [replace] *)

Lemma replace_from_skip (old new u t : string) :
  replace_from old new (String.length u) (u +:+ t) = replace_from old new 0 t.
Proof. induction u as [|x u IH]; [reflexivity | exact IH]. Qed.

Lemma replace_from_0_cons (old new : string) (c : ascii) (s : string) :
  replace_from old new 0 (String c s) =
  if startswith old (String c s)
  then new +:+ replace_from old new (String.length old - 1) s
  else String c (replace_from old new 0 s).
Proof. reflexivity. Qed.

Section Replace.
Variables (a : ascii) (old' new : string).
Local Abbreviation old := (String a old').

Lemma replace_nil : replace old new EmptyString = EmptyString.
Proof. reflexivity. Qed.

Lemma replace_match (t : string) :
  replace old new (old +:+ t) = new +:+ replace old new t.
Proof.
  unfold replace.
  change (String a old' +:+ t) with (String a (old' +:+ t)).
  rewrite replace_from_0_cons.
  assert (startswith (String a old') (String a (old' +:+ t)) = true) as ->
    by apply (startswith_app (String a old') t).
  replace (String.length (String a old') - 1) with (String.length old')
    by (simpl; lia).
  now rewrite replace_from_skip.
Qed.

Lemma replace_nomatch (c : ascii) (s : string) :
  startswith old (String c s) = false ->
  replace old new (String c s) = String c (replace old new s).
Proof.
  intros H. unfold replace in *.
  now rewrite replace_from_0_cons, H.
Qed.

(** Induction along the scan: at each position the text starts with
    [old], which is passed over, or one character is copied. *)
Lemma replace_ind (P : string -> Prop) :
  P EmptyString ->
  (forall t, P t -> P (old +:+ t)) ->
  (forall c s, startswith old (String c s) = false -> P s -> P (String c s)) ->
  forall s, P s.
Proof.
  intros Hnil Hmatch Hcopy s.
  remember (String.length s) as n eqn:Hn.
  revert s Hn. induction n as [n IH] using lt_wf_ind. intros s Hn.
  destruct s as [|c s]; [exact Hnil|].
  destruct (startswith old (String c s)) eqn:Hs.
  - rewrite (startswith_inv _ _ Hs). apply Hmatch.
    eapply IH; [|reflexivity]. subst n.
    rewrite length_drop. simpl. lia.
  - apply Hcopy; [exact Hs|]. eapply IH; [|reflexivity]. subst n. simpl. lia.
Qed.

(** A text without [old] is left as it is. *)
Lemma replace_absent (s : string) :
  contains old s = false -> replace old new s = s.
Proof.
  induction s as [|t IH|c s Hs IH] using replace_ind; intros H.
  - reflexivity.
  - exfalso. rewrite contains_startswith in H; [discriminate|].
    apply startswith_app.
  - apply contains_false_cons in H as [_ H].
    rewrite replace_nomatch by exact Hs. now rewrite IH.
Qed.

(** Where [old] occurs, [new] occurs afterwards. *)
Lemma replace_present (s : string) :
  contains old s = true -> contains new (replace old new s) = true.
Proof.
  induction s as [|t IH|c s Hs IH] using replace_ind; intros H.
  - discriminate.
  - rewrite replace_match. apply contains_startswith, startswith_app.
  - rewrite contains_cons, Hs in H. simpl in H.
    rewrite replace_nomatch by exact Hs.
    rewrite contains_cons, (IH H). apply orb_true_r.
Qed.

End Replace.

(** *** Overlaps *)

Lemma apartb_spec (x y : string) : apartb x y = true -> apart x y.
Proof.
  unfold apartb, apart. rewrite forallb_forall. intros H k Hk.
  apply negb_true_iff, H, in_seq. lia.
Qed.

Lemma agree_sym (x y : string) : agree x y = agree y x.
Proof. apply orb_comm. Qed.

Lemma agree_cons (c d : ascii) (x y : string) :
  agree (String c x) (String d y) = Ascii.eqb c d && agree x y.
Proof.
  unfold agree. simpl. rewrite (Ascii.eqb_sym d c).
  destruct (Ascii.eqb c d); reflexivity.
Qed.

Lemma agree_nil_l (y : string) : agree EmptyString y = true.
Proof. reflexivity. Qed.

Lemma agree_nil_r (x : string) : agree x EmptyString = true.
Proof. unfold agree. simpl. apply orb_true_r. Qed.

Lemma agree_app_l (u v o : string) :
  agree (u +:+ v) o = true -> agree u o = true.
Proof.
  revert o; induction u as [|c u IH]; intros o H; [reflexivity|].
  destruct o as [|d o]; [apply agree_nil_r|].
  simpl append in H. rewrite agree_cons in *.
  apply andb_true_iff in H as [-> H]. simpl. now apply IH.
Qed.

(** A string that starts [x +:+ t] agrees with [x]. *)
Lemma startswith_app_agree (o x t : string) :
  startswith o (x +:+ t) = true -> agree x o = true.
Proof.
  revert o; induction x as [|c x IH]; intros o H; [reflexivity|].
  destruct o as [|d o]; [apply agree_nil_r|].
  simpl in H. rewrite agree_cons, (Ascii.eqb_sym c d).
  destruct (Ascii.eqb d c); [|discriminate]. simpl. now apply IH.
Qed.

Lemma apart_head (c : ascii) (u y : string) :
  apart (String c u) y -> agree (String c u) y = false.
Proof. intros H. apply (H 0). simpl. lia. Qed.

Lemma apart_tail (c : ascii) (u y : string) : apart (String c u) y -> apart u y.
Proof. intros H k Hk. apply (H (S k)). simpl. lia. Qed.

Section Overlap.
Variables (a : ascii) (old' new : string).
Local Abbreviation old := (String a old').

(** A text in which [old] starts nowhere is copied. *)
Lemma replace_copy (u b : string) :
  apart u old -> replace old new (u +:+ b) = u +:+ replace old new b.
Proof.
  induction u as [|c u IH]; intros H; [reflexivity|].
  simpl append. rewrite (replace_nomatch a old' new).
  - rewrite IH; [reflexivity | now apply apart_tail in H].
  - destruct (startswith old (String c (u +:+ b))) eqn:E; [|reflexivity].
    apply (startswith_app_agree old (String c u) b) in E.
    rewrite (apart_head _ _ _ H) in E. discriminate.
Qed.

(** [replace] keeps the occurrences of a text that cannot overlap [old]. *)
Lemma replace_keeps (o s : string) :
  apart old o -> apart o old ->
  contains o s = true -> contains o (replace old new s) = true.
Proof.
  intros H1 H2.
  induction s as [|t IH|c s Hs IH] using (replace_ind a old'); intros H.
  - exact H.
  - rewrite (replace_match a old' new). apply contains_app_inv in H as [(k & Hk & E)|H].
    + apply startswith_app_agree in E. now rewrite (H1 k Hk) in E.
    + apply contains_app_r. now apply IH.
  - rewrite contains_cons in H. apply orb_true_iff in H as [H|H].
    + rewrite (startswith_inv _ _ H), replace_copy by exact H2.
      apply contains_startswith, startswith_app.
    + rewrite (replace_nomatch a old' new) by exact Hs.
      rewrite contains_cons, (IH H). apply orb_true_r.
Qed.

(** A text that cannot overlap [new] starts the result only where it
    started the original. *)
Lemma replace_startswith (u s : string) :
  apart u new ->
  startswith u (replace old new s) = true -> startswith u s = true.
Proof.
  revert s; induction u as [|d u IH]; intros s H E; [reflexivity|].
  destruct s as [|c s]; [discriminate|].
  destruct (startswith old (String c s)) eqn:Hs.
  - rewrite (startswith_inv _ _ Hs), (replace_match a old' new) in E.
    apply startswith_app_agree in E.
    rewrite agree_sym, (apart_head _ _ _ H) in E. discriminate.
  - rewrite (replace_nomatch a old' new) in E by exact Hs. simpl in *.
    destruct (Ascii.eqb d c); [|discriminate].
    apply IH; [now apply apart_tail in H | exact E].
Qed.

(** [replace] creates no occurrence of a text that cannot overlap [new]. *)
Lemma replace_creates_none (o s : string) :
  apart new o -> apart o new ->
  contains o (replace old new s) = true -> contains o s = true.
Proof.
  intros H1 H2.
  induction s as [|t IH|c s Hs IH] using (replace_ind a old'); intros H.
  - exact H.
  - rewrite (replace_match a old' new) in H. apply contains_app_r.
    apply contains_app_inv in H as [(k & Hk & E)|H]; [|now apply IH].
    apply startswith_app_agree in E. now rewrite (H1 k Hk) in E.
  - rewrite contains_cons.
    destruct (startswith o (replace old new (String c s))) eqn:E.
    + now rewrite (replace_startswith _ _ H2 E).
    + rewrite (replace_nomatch a old' new) in H, E by exact Hs.
      rewrite contains_cons, E in H. rewrite (IH H). apply orb_true_r.
Qed.

(** When [new] cannot overlap [old], no [old] is left. *)
Lemma replace_removes (s : string) :
  apart new old -> apart old new ->
  contains old (replace old new s) = false.
Proof.
  intros H1 H2.
  induction s as [|t IH|c s Hs IH] using (replace_ind a old').
  - reflexivity.
  - rewrite (replace_match a old' new).
    destruct (contains old (new +:+ replace old new t)) eqn:E; [|reflexivity].
    apply contains_app_inv in E as [(k & Hk & E)|E]; [|congruence].
    apply startswith_app_agree in E. now rewrite (H1 k Hk) in E.
  - destruct (startswith old (replace old new (String c s))) eqn:E.
    + apply (replace_startswith _ _ H2) in E. congruence.
    + rewrite (replace_nomatch a old' new) in * by exact Hs.
      now rewrite contains_cons, E, IH.
Qed.

End Overlap.

End StrFacts.

(** ** Running the monad *)

Lemma run_bind {A B} (m : M A) (k : A -> M B) (w : world) :
  (m ≫= k) w = match m w with
               | (Ok a, w') => k a w'
               | (Raise e, w') => (Raise e, w')
               end.
Proof. reflexivity. Qed.

Lemma run_ret {A} (a : A) (w : world) : (mret a : M A) w = (Ok a, w).
Proof. reflexivity. Qed.

Lemma run_raise {A} (e : exn) (w : world) : @raise A e w = (Raise e, w).
Proof. reflexivity. Qed.

Lemma run_try {A} (m : M A) (h : exn -> M A) (w : world) :
  try_except m h w = match m w with
                     | (Ok a, w') => (Ok a, w')
                     | (Raise e, w') => h e w'
                     end.
Proof. reflexivity. Qed.

Lemma run_get {A} (f : world -> A) (w : world) : get f w = (Ok (f w), w).
Proof. reflexivity. Qed.

Lemma run_modify (f : world -> world) (w : world) : modify f w = (Ok tt, f w).
Proof. reflexivity. Qed.

Lemma run_print (line : string) (w : world) :
  print line w = (Ok tt, set_stdout (stdout w ++ [line]) w).
Proof. reflexivity. Qed.

Lemma run_exists (p : string) (w : world) :
  os_path_exists p w =
  (Ok (match fs w !! resolve (cwd w) p with Some _ => true | None => false end), w).
Proof. reflexivity. Qed.

Lemma run_time (w : world) : time_time w = (Ok (now w), w).
Proof. reflexivity. Qed.

Lemma run_system (w : world) : platform_system w = (Ok (system w), w).
Proof. reflexivity. Qed.

Lemma run_input (prompt : string) (w : world) :
  input prompt w =
  match stdin w with
  | line :: rest => (Ok line, set_stdin rest (set_stdout (stdout w ++ [prompt]) w))
  | [] => (Raise (Exn EOFError "EOF when reading a line"),
           set_stdout (stdout w ++ [prompt]) w)
  end.
Proof. unfold input. rewrite run_bind, run_print. reflexivity. Qed.

Lemma run_sleep (secs : nat) (w : world) :
  time_sleep secs w =
  (Ok tt, set_now (now w + Z.of_nat secs)%Z (set_events (events w ++ [Sleep secs]) w)).
Proof. reflexivity. Qed.

Lemma run_randbelow (bound : nat) (w : world) :
  randbelow bound w = (Ok (entropy w (drawn w) mod bound), set_drawn (S (drawn w)) w).
Proof. reflexivity. Qed.

Lemma run_subprocess (argv : list string) (check : bool) (w : world) :
  subprocess_run argv check w =
  match tool w (events w) argv (cwd w) (fs w) with
  | Failed e => (Raise e, set_events (events w ++ [Spawn argv (cwd w)]) w)
  | Exited rc out f' =>
      if check && negb (rc =? 0)%Z
      then (Raise (Exn CalledProcessError
              (Str.join " " argv +:+ " returned non-zero exit status " +:+ pretty rc)),
            set_fs f' (set_events (events w ++ [Spawn argv (cwd w)]) w))
      else (Ok (rc, out), set_fs f' (set_events (events w ++ [Spawn argv (cwd w)]) w))
  end.
Proof. reflexivity. Qed.

Lemma run_print_all (lines : list string) (w : world) :
  print_all lines w = (Ok tt, set_stdout (stdout w ++ lines) w).
Proof.
  revert w; induction lines as [|l lines IH]; intros w; simpl.
  - rewrite run_ret. destruct w. unfold set_stdout. simpl. now rewrite app_nil_r.
  - rewrite run_bind, run_print. cbv beta iota. rewrite IH.
    unfold set_stdout. simpl. now rewrite <- app_assoc.
Qed.

Lemma resolve_nil (p : string) : resolve [] p = p.
Proof. reflexivity. Qed.

(** The fields of a world after an update. *)
Ltac wsimpl :=
  cbn [cwd fs stdin stdout events now drawn entropy system utf8_decode tool
       set_fs set_cwd set_stdin set_stdout set_events set_now set_drawn fst snd].

Ltac wsimpl_in H :=
  cbn [cwd fs stdin stdout events now drawn entropy system utf8_decode tool
       set_fs set_cwd set_stdin set_stdout set_events set_now set_drawn fst snd] in H.

(** One step of a run whose next operation is known. *)
Ltac mstep :=
  first [ rewrite run_bind | rewrite run_ret | rewrite run_raise
        | rewrite run_print | rewrite run_exists | rewrite run_get
        | rewrite run_modify | rewrite run_time | rewrite run_system
        | rewrite run_input | rewrite run_sleep | rewrite run_try
        | rewrite run_randbelow ];
  cbv beta iota; wsimpl.

Ltac bsimpl :=
  repeat first [ progress change (negb true) with false
               | progress change (negb false) with true
               | progress change (true && true) with true
               | progress change (true && false) with false
               | progress change (0 =? 0)%Z with true
               | progress cbv beta iota ].

Ltac mrun := repeat first [ mstep | progress bsimpl ].

Lemma run_run_command (cmd : list string) (w : world) :
  run_command cmd w =
  let w0 := set_stdout (stdout w ++ ["Running: " +:+ Str.join " " cmd]) w in
  let w1 := set_events (events w ++ [Spawn cmd (cwd w)]) w0 in
  match tool w (events w) cmd (cwd w) (fs w) with
  | Failed e => (Raise e, w1)
  | Exited rc out f' =>
      if (rc =? 0)%Z then (Ok tt, set_fs f' w1)
      else (Raise (Exn CalledProcessError
              (Str.join " " cmd +:+ " returned non-zero exit status " +:+ pretty rc)),
            set_fs f' w1)
  end.
Proof.
  unfold run_command. rewrite run_bind, run_print. cbv beta iota.
  rewrite run_bind, run_subprocess. wsimpl.
  destruct (tool w (events w) cmd (cwd w) (fs w)) as [rc out f'|e]; [|reflexivity].
  destruct (rc =? 0)%Z; reflexivity.
Qed.

Lemma run_chdir (d : string) (w : world) :
  os_chdir d w =
  if String.eqb d ".." then (Ok tt, set_cwd (removelast (cwd w)) w)
  else match fs w !! resolve (cwd w) d with
       | Some Dir => (Ok tt, set_cwd (cwd w ++ [d]) w)
       | Some (File _) => (Raise (Exn NotADirectoryError d), w)
       | None => (Raise (Exn FileNotFoundError d), w)
       end.
Proof. reflexivity. Qed.

(** ** The capability-restriction toggle *)

(** C2. The toggle is meant to be idempotent for a fixed first-run
    determination.  It is not: the commented form of the directive contains
    its active form, so the first-run guard holds again on a manifest that is
    already commented out.  On the manifest [manifest_active], with no search
    container running in either run (first run both times), the second
    application comments the directive out a second time. *)
Theorem toggle_twice_differs :
  let w0 := host (<["docker-compose.yml" := File manifest_active]> ∅) [] 0 (fun _ => 0) idle_tool in
  let w1 := snd (check_and_fix_docker_compose_for_searxng w0) in
  let w2 := snd (check_and_fix_docker_compose_for_searxng w1) in
  fst (detect_first_run w0) = Ok true /\
  fst (detect_first_run w1) = Ok true /\
  manifest_of w1 = Some (File ("    " +:+ commented_directive)) /\
  manifest_of w2 = Some (File manifest_twice_commented) /\
  manifest_of w2 <> manifest_of w1.
Proof. vm_compute. repeat split; congruence. Qed.

(** C3. After the toggle the directive is meant never to be present both
    active and commented out.  With the search container initialised (not a
    first run) and the manifest [manifest_mixed], whose second line was
    commented out twice, the step leaves a manifest whose first line is the
    active directive and whose second line is the commented one.  On the plain
    first-run path the manifest left behind still passes the script's own test
    for the active form. *)
Theorem toggle_leaves_both_forms :
  let w0 := host (<["docker-compose.yml" := File manifest_mixed]> ∅) [] 0 (fun _ => 0) running_tool in
  let w1 := snd (check_and_fix_docker_compose_for_searxng w0) in
  let v0 := host (<["docker-compose.yml" := File manifest_active]> ∅) [] 0 (fun _ => 0) idle_tool in
  let v1 := snd (check_and_fix_docker_compose_for_searxng v0) in
  fst (detect_first_run w0) = Ok false /\
  manifest_of w1 =
    Some (File (active_directive +:+ nl +:+ "    " +:+ commented_directive)) /\
  (exists rest, manifest_of w1 = Some (File (active_directive +:+ rest))
                /\ Str.contains commented_directive rest = true) /\
  (exists text, manifest_of v1 = Some (File text)
                /\ Str.contains active_directive text = true
                /\ Str.contains commented_directive text = true).
Proof.
  vm_compute. repeat split.
  - eexists. split; reflexivity.
  - eexists. repeat split; reflexivity.
Qed.

(** ** The destructive reset *)

Lemma app_eq_self (s x : string) : s +:+ x = s -> x = EmptyString.
Proof.
  intros H. destruct x as [|c x]; [reflexivity|].
  apply (f_equal String.length) in H.
  rewrite StrFacts.slength_app in H. simpl in H. lia.
Qed.

Lemma rekey_not_src (src dst k : string) :
  String.length src < String.length dst -> rekey src dst k <> src.
Proof.
  intros Hl. unfold rekey.
  destruct (String.eqb_spec k src) as [->|Hk].
  - intros E. rewrite E in Hl. lia.
  - destruct (Str.startswith (src +:+ "/") k); [|exact Hk].
    intros E. apply (f_equal String.length) in E.
    rewrite StrFacts.slength_app in E. lia.
Qed.

(** After the move nothing is left at the source... *)
Lemma rename_tree_src (src dst : string) (f : gmap string node) :
  String.length src < String.length dst -> rename_tree src dst f !! src = None.
Proof.
  intros Hl. unfold rename_tree. apply not_elem_of_list_to_map_1.
  rewrite <- list_fmap_compose. intros Hin.
  apply list_elem_of_fmap in Hin as ([k v] & E & _). simpl in E.
  symmetry in E. now apply rekey_not_src in E.
Qed.

(** ... and the node that was there is at the destination. *)
Lemma rename_tree_dst (src dst : string) (n : node) (f : gmap string node) :
  f !! src = Some n -> f !! dst = None -> rename_tree src dst f !! dst = Some n.
Proof.
  intros Hsrc Hdst. unfold rename_tree. apply elem_of_list_to_map_1'.
  - intros y Hy. apply list_elem_of_fmap in Hy as ([k v] & E & Hkv).
    simpl in E. injection E as E ->. apply elem_of_map_to_list in Hkv.
    unfold rekey in E. destruct (String.eqb_spec k src) as [->|Hk].
    + congruence.
    + destruct (Str.startswith (src +:+ "/") k) eqn:Hs.
      * exfalso. apply StrFacts.startswith_inv in Hs.
        rewrite StrFacts.sapp_assoc in Hs.
        assert (Str.drop (String.length src) k
                = "/" +:+ Str.drop (String.length (src +:+ "/")) k) as Hd.
        { rewrite Hs at 1. apply StrFacts.drop_app_length. }
        rewrite Hd in E. symmetry in E. apply app_eq_self in E. discriminate.
      * subst k. congruence.
  - apply list_elem_of_fmap. exists (src, n). split.
    + simpl. unfold rekey. now rewrite String.eqb_refl.
    + now apply elem_of_map_to_list.
Qed.

Lemma backup_path_longer (t : Z) :
  String.length db_data_path < String.length (backup_path t).
Proof.
  unfold backup_path. rewrite StrFacts.slength_app.
  change (String.length (".backup." +:+ pretty t)) with (S (String.length ("backup." +:+ pretty t))).
  lia.
Qed.

(** C4 as stated fails: the answer [Y], which is not the lowercase [y], has
    the data directory moved as well. *)
Lemma reset_accepts_uppercase :
  let w := host db_fs ["Y"] 1700000000 (fun _ => 0) idle_tool in
  let w' := snd (clean_supabase_database w) in
  "Y" <> "y" /\
  fst (clean_supabase_database w) = Ok true /\
  fs w' !! db_data_path = None /\
  fs w' !! backup_path 1700000000 = Some Dir /\
  fs w' !! (backup_path 1700000000 +:+ "/PG_VERSION") = Some (File "15").
Proof. vm_compute. repeat split; congruence. Qed.

(** C4, amended.  With the data directory present and the backup path free,
    the directory is moved to the backup path exactly when the answer,
    lowercased and stripped of surrounding white space, is [y]; after any
    other answer the file system is the one before and nothing was moved or
    written. *)
Theorem reset_moves_iff_yes (w : world) (line : string) (rest : list string) (n : node) :
  cwd w = [] ->
  stdin w = line :: rest ->
  fs w !! db_data_path = Some n ->
  fs w !! backup_path (now w) = None ->
  parent_is_dir (fs w) (backup_path (now w)) = true ->
  exists r w',
    clean_supabase_database w = (Ok r, w') /\
    (r = true <-> Str.strip (Str.lower line) = "y") /\
    (r = true ->
       fs w' = rename_tree db_data_path (backup_path (now w)) (fs w) /\
       fs w' !! db_data_path = None /\
       fs w' !! backup_path (now w) = Some n /\
       events w' = events w ++ [Moved db_data_path (backup_path (now w))]) /\
    (r = false -> fs w' = fs w /\ events w' = events w).
Proof.
  intros Hcwd Hin Hdata Hfree Hparent.
  unfold clean_supabase_database.
  change (path_join ["supabase"; "docker"; "volumes"; "db"; "data"]) with db_data_path.
  mrun. rewrite Hcwd, resolve_nil, Hdata. mrun. rewrite Hin. mrun.
  destruct (String.eqb_spec (Str.strip (Str.lower line)) "y") as [Hy|Hy].
  - mrun. fold (backup_path (now w)).
    unfold shutil_move at 1. wsimpl. rewrite Hcwd, !resolve_nil.
    rewrite Hdata, Hfree. cbv beta iota zeta. rewrite Hfree, Hparent. mrun.
    eexists true, _. split; [reflexivity|]. split; [tauto|]. split; [|discriminate].
    intros _. wsimpl. repeat split.
    + apply rename_tree_src, backup_path_longer.
    + now apply rename_tree_dst.
  - mrun. eexists false, _. split; [reflexivity|].
    split; [split; [discriminate | contradiction]|].
    split; [discriminate|]. intros _. split; reflexivity.
Qed.

Lemma reset_moves_iff_yes_witness :
  let w := host db_fs ["  Y "] 1700000000 (fun _ => 0) idle_tool in
  exists r w',
    clean_supabase_database w = (Ok r, w') /\
    (r = true <-> Str.strip (Str.lower "  Y ") = "y") /\
    (r = true ->
       fs w' = rename_tree db_data_path (backup_path (now w)) (fs w) /\
       fs w' !! db_data_path = None /\
       fs w' !! backup_path (now w) = Some Dir /\
       events w' = events w ++ [Moved db_data_path (backup_path (now w))]) /\
    (r = false -> fs w' = fs w /\ events w' = events w).
Proof.
  apply (reset_moves_iff_yes
           (host db_fs ["  Y "] 1700000000 (fun _ => 0) idle_tool) "  Y " [] Dir);
    reflexivity.
Defined.

(** ** Secret provisioning *)

Import StrFacts.

(** *** Fresh values against the placeholder table *)

Lemma is_hexdigit_alnum (c : ascii) :
  Str.is_hexdigit c = true -> Str.is_alnum c = true.
Proof.
  destruct c as [[|] [|] [|] [|] [|] [|] [|] [|]]; intros H;
    solve [reflexivity | discriminate H].
Qed.

Lemma all_impl (f g : ascii -> bool) (s : string) :
  (forall c, f c = true -> g c = true) ->
  Str.all f s = true -> Str.all g s = true.
Proof.
  intros Hfg. induction s as [|c s IH]; simpl; [reflexivity|].
  intros H. apply andb_true_iff in H as [Hc Hs].
  now rewrite (Hfg _ Hc), IH.
Qed.

Lemma well_shaped_alnum (g : generator) (V : string) :
  well_shaped g V ->
  String.length V = value_length g /\ Str.all Str.is_alnum V = true.
Proof.
  destruct g; intros [Hl Ha]; split; auto.
  eapply all_impl; [apply is_hexdigit_alnum | exact Ha].
Qed.

Lemma startswith_smap (f : ascii -> ascii) (x y : string) :
  Str.startswith x y = true -> Str.startswith (smap f x) (smap f y) = true.
Proof.
  revert y; induction x as [|c x IH]; intros y H; [reflexivity|].
  destruct y as [|d y]; [discriminate|]. simpl in *.
  destruct (Ascii.eqb_spec c d) as [->|]; [|discriminate].
  rewrite Ascii.eqb_refl. now apply IH.
Qed.

Lemma agree_smap (f : ascii -> ascii) (x y : string) :
  agree x y = true -> agree (smap f x) (smap f y) = true.
Proof.
  unfold agree. intros H. apply orb_true_iff in H as [H|H];
    apply (startswith_smap f) in H; rewrite H; [reflexivity | apply orb_true_r].
Qed.

Lemma smap_app (f : ascii -> ascii) (x y : string) :
  smap f (x +:+ y) = smap f x +:+ smap f y.
Proof. induction x as [|c x IH]; simpl; [reflexivity | now rewrite IH]. Qed.

Lemma smap_blur_alnum (V : string) :
  Str.all Str.is_alnum V = true -> smap blur V = xs (String.length V).
Proof.
  induction V as [|c V IH]; simpl; [reflexivity|].
  intros H. apply andb_true_iff in H as [Hc HV].
  unfold blur at 1. now rewrite Hc, IH.
Qed.

Lemma refuted_sound (u : string) (n : nat) (o V : string) :
  refuted u n o = true ->
  Str.all Str.is_alnum V = true -> String.length V = n ->
  agree (u +:+ V) o = false.
Proof.
  intros Hr Ha Hl. destruct (agree (u +:+ V) o) eqn:E; [exfalso|reflexivity].
  unfold refuted in Hr. apply orb_true_iff in Hr as [Hr|Hr];
    apply negb_true_iff in Hr.
  - apply agree_app_l in E. congruence.
  - apply (agree_smap blur) in E.
    rewrite smap_app, (smap_blur_alnum _ Ha), Hl in E. congruence.
Qed.

Lemma drop_lt_cons (k : nat) (s : string) :
  k < String.length s -> exists c r, Str.drop k s = String c r.
Proof.
  revert s; induction k as [|k IH]; intros [|c s] Hk; simpl in *; try lia.
  - now exists c, s.
  - apply IH. lia.
Qed.

Lemma entries_well_formed_ok : entries_well_formed = true.
Proof. vm_compute. reflexivity. Qed.

Lemma fresh_apart_from_placeholders_ok : fresh_apart_from_placeholders = true.
Proof. vm_compute. reflexivity. Qed.

Lemma placeholders_apart_ok : placeholders_apart = true.
Proof. vm_compute. reflexivity. Qed.

Lemma entry_facts (e : string * string * generator) :
  In e placeholders ->
  Str.startswith (key_eq e) (placeholder_text e) = true
  /\ Str.all Str.is_alnum (placeholder_text e) = false
  /\ exists c r, placeholder_text e = String c r /\ Str.is_hexdigit c = false.
Proof.
  intros He. pose proof entries_well_formed_ok as H.
  unfold entries_well_formed in H. rewrite forallb_forall in H.
  specialize (H e He). apply andb_true_iff in H as [H H3].
  apply andb_true_iff in H as [H1 H2]. apply negb_true_iff in H2.
  repeat split; auto.
  destruct (placeholder_text e) as [|c r]; [discriminate|].
  exists c, r. split; [reflexivity | now apply negb_true_iff].
Qed.

Lemma placeholder_nonempty (e : string * string * generator) :
  In e placeholders -> placeholder_text e <> EmptyString.
Proof.
  intros He. destruct (entry_facts e He) as (_ & _ & c & r & -> & _). discriminate.
Qed.

(** A replacement text never runs into a placeholder... *)
Lemma new_apart_old (a b : string * string * generator) (V : string) :
  In a placeholders -> In b placeholders ->
  well_shaped (generator_of a) V ->
  (generator_of a = Alnum -> tail_clean V = true) ->
  apart (key_eq a +:+ V) (placeholder_text b).
Proof.
  intros Ha Hb Hshape Hclean k Hk.
  destruct (well_shaped_alnum _ _ Hshape) as [Hlen Halnum].
  rewrite slength_app in Hk.
  destruct (Nat.lt_ge_cases k (String.length (key_eq a))) as [Hlt|Hge].
  - rewrite drop_app_lt by lia.
    apply refuted_sound with (n := value_length (generator_of a)); auto.
    pose proof fresh_apart_from_placeholders_ok as H.
    unfold fresh_apart_from_placeholders in H. rewrite forallb_forall in H.
    specialize (H a Ha). rewrite forallb_forall in H. specialize (H b Hb).
    apply andb_true_iff in H as [H _]. rewrite forallb_forall in H.
    apply H, in_seq. lia.
  - rewrite drop_app_ge by lia.
    set (j := k - String.length (key_eq a)).
    assert (j < String.length V) as Hj by (unfold j; lia).
    destruct (entry_facts b Hb) as (_ & Hna & c & r & Hb0 & Hc).
    unfold agree. apply orb_false_iff. split.
    + destruct (generator_of a) eqn:Hg.
      * specialize (Hclean eq_refl). unfold tail_clean in Hclean.
        rewrite forallb_forall in Hclean.
        assert (In j (seq 0 (String.length V))) as Hin by (apply in_seq; lia).
        specialize (Hclean j Hin). rewrite forallb_forall in Hclean.
        now apply negb_true_iff, Hclean.
      * destruct Hshape as [_ Hhex].
        destruct (drop_lt_cons j V Hj) as (d & rest & Hd).
        apply (all_drop _ j) in Hhex. rewrite Hd in *. rewrite Hb0.
        simpl in Hhex. apply andb_true_iff in Hhex as [Hdh _]. simpl.
        destruct (Ascii.eqb_spec d c) as [->|]; [congruence | reflexivity].
    + destruct (Str.startswith (placeholder_text b) (Str.drop j V)) eqn:E;
        [|reflexivity].
      apply (startswith_all Str.is_alnum) in E; [congruence|].
      now apply all_drop.
Qed.

(** ... and no placeholder runs into a replacement text. *)
Lemma old_apart_new (a b : string * string * generator) (V : string) :
  In a placeholders -> In b placeholders ->
  well_shaped (generator_of a) V ->
  apart (placeholder_text b) (key_eq a +:+ V).
Proof.
  intros Ha Hb Hshape k Hk.
  destruct (well_shaped_alnum _ _ Hshape) as [Hlen Halnum].
  rewrite agree_sym.
  apply refuted_sound with (n := value_length (generator_of a)); auto.
  pose proof fresh_apart_from_placeholders_ok as H.
  unfold fresh_apart_from_placeholders in H. rewrite forallb_forall in H.
  specialize (H a Ha). rewrite forallb_forall in H. specialize (H b Hb).
  apply andb_true_iff in H as [_ H]. rewrite forallb_forall in H.
  apply H, in_seq. lia.
Qed.

(** Two different placeholders do not overlap. *)
Lemma old_apart_old (a b : string * string * generator) :
  In a placeholders -> In b placeholders ->
  placeholder_text a <> placeholder_text b ->
  apart (placeholder_text a) (placeholder_text b).
Proof.
  intros Ha Hb Hne. pose proof placeholders_apart_ok as H.
  unfold placeholders_apart in H. rewrite forallb_forall in H.
  specialize (H a Ha). rewrite forallb_forall in H. specialize (H b Hb).
  apply orb_true_iff in H as [H|H].
  - apply String.eqb_eq in H. contradiction.
  - now apply apartb_spec.
Qed.

(** *** The generators *)

Lemma alphabet_get (i : nat) :
  i < 62 -> exists c, String.get i alphabet = Some c /\ Str.is_alnum c = true.
Proof.
  intros Hi.
  assert (forallb (fun i => match String.get i alphabet with
                            | Some c => Str.is_alnum c
                            | None => false
                            end) (seq 0 62) = true) as H by (vm_compute; reflexivity).
  rewrite forallb_forall in H. specialize (H i). rewrite in_seq in H.
  destruct (String.get i alphabet) as [c|]; [|discriminate H; lia].
  exists c. split; [reflexivity | apply H; lia].
Qed.

Lemma hexdigit_ok (i : nat) : i < 16 -> Str.is_hexdigit (hexdigit i) = true.
Proof.
  intros Hi.
  assert (forallb (fun i => Str.is_hexdigit (hexdigit i)) (seq 0 16) = true) as H
    by (vm_compute; reflexivity).
  rewrite forallb_forall in H. apply H, in_seq. lia.
Qed.

Lemma secrets_choice_run (w : world) :
  exists c, secrets_choice alphabet w = (Ok c, set_drawn (S (drawn w)) w)
            /\ Str.is_alnum c = true.
Proof.
  unfold secrets_choice. change (String.length alphabet) with 62. mrun.
  destruct (alphabet_get (entropy w (drawn w) mod 62)) as (c & -> & Hc).
  { apply Nat.mod_upper_bound. lia. }
  exists c. now mrun.
Qed.

Lemma set_drawn_twice (a b : nat) (w : world) :
  set_drawn a (set_drawn b w) = set_drawn a w.
Proof. reflexivity. Qed.

(** [generate_secret n] returns [n] letters and digits. *)
Lemma generate_secret_run (n : nat) (w : world) :
  exists V, generate_secret n w = (Ok V, set_drawn (drawn w + n) w)
            /\ String.length V = n /\ Str.all Str.is_alnum V = true.
Proof.
  revert w; induction n as [|n IH]; intros w.
  - exists EmptyString. simpl. rewrite run_ret, Nat.add_0_r.
    destruct w; repeat split.
  - destruct (secrets_choice_run w) as (c & Hrun & Hc).
    destruct (IH (set_drawn (S (drawn w)) w)) as (V & HV & Hlen & Hall).
    exists (String c V). simpl generate_secret.
    rewrite run_bind, Hrun. cbv beta iota. rewrite run_bind, HV. cbv beta iota.
    rewrite run_ret. wsimpl. rewrite set_drawn_twice.
    replace (S (drawn w) + n) with (drawn w + S n) by lia.
    simpl. now rewrite Hlen, Hc, Hall.
Qed.

(** [secrets.token_hex n] returns [2 * n] hexadecimal digits. *)
Lemma token_hex_run (n : nat) (w : world) :
  exists V, secrets_token_hex n w = (Ok V, set_drawn (drawn w + n) w)
            /\ String.length V = 2 * n /\ Str.all Str.is_hexdigit V = true.
Proof.
  revert w; induction n as [|n IH]; intros w.
  - exists EmptyString. simpl. rewrite run_ret, Nat.add_0_r.
    destruct w; repeat split.
  - destruct (IH (set_drawn (S (drawn w)) w)) as (V & HV & Hlen & Hall).
    exists (hex_of_byte (entropy w (drawn w) mod 256) +:+ V).
    simpl secrets_token_hex. mrun. rewrite HV. mrun.
    rewrite set_drawn_twice.
    replace (S (drawn w) + n) with (drawn w + S n) by lia.
    split; [reflexivity|]. unfold hex_of_byte.
    assert (Str.is_hexdigit (hexdigit (entropy w (drawn w) mod 256 / 16)) = true) as H1.
    { apply hexdigit_ok, Nat.Div0.div_lt_upper_bound.
      pose proof (Nat.mod_upper_bound (entropy w (drawn w)) 256). lia. }
    assert (Str.is_hexdigit (hexdigit ((entropy w (drawn w) mod 256) mod 16)) = true) as H2.
    { apply hexdigit_ok, Nat.mod_upper_bound. lia. }
    revert H1 H2.
    generalize (hexdigit (entropy w (drawn w) mod 256 / 16)).
    generalize (hexdigit ((entropy w (drawn w) mod 256) mod 16)).
    intros c2 c1 H1 H2. simpl. rewrite Hlen, Hall, H1, H2. split; [lia | reflexivity].
Qed.

Lemma generate_run (g : generator) (w : world) :
  exists V, generate g w = (Ok V, set_drawn (drawn w + 32) w) /\ well_shaped g V.
Proof.
  destruct g.
  - destruct (generate_secret_run 32 w) as (V & H & Hl & Ha).
    exists V. split; [exact H | split; [exact Hl | exact Ha]].
  - destruct (token_hex_run 32 w) as (V & H & Hl & Ha).
    exists V. split; [exact H | split; [exact Hl | exact Ha]].
Qed.

(** The dictionary: one well-shaped value per entry, in order. *)
Lemma build_replacements_run (table : list (string * string * generator)) (w : world) :
  exists replacements,
    build_replacements table w
    = (Ok replacements, set_drawn (drawn w + 32 * List.length table) w)
    /\ Forall2 (fun e r => exists V, r = (placeholder_text e, key_eq e +:+ V)
                                    /\ well_shaped (generator_of e) V)
               table replacements.
Proof.
  revert w; induction table as [|[[old keq] g] table IH]; intros w.
  - exists []. simpl. rewrite run_ret, Nat.add_0_r.
    destruct w; split; [reflexivity | constructor].
  - destruct (generate_run g w) as (V & HV & Hshape).
    destruct (IH (set_drawn (drawn w + 32) w)) as (rest & Hrest & Hall).
    exists ((old, keq +:+ V) :: rest). simpl build_replacements.
    rewrite run_bind, HV. cbv beta iota. rewrite run_bind, Hrest. cbv beta iota.
    rewrite run_ret. wsimpl. rewrite set_drawn_twice.
    replace (drawn w + 32 + 32 * List.length table)
      with (drawn w + 32 * List.length ((old, keq, g) :: table)) by (simpl; lia).
    split; [reflexivity|]. constructor; [|exact Hall]. now exists V.
Qed.

Lemma fresh_replacements_spec (w : world) :
  build_replacements placeholders w
  = (Ok (fresh_replacements w), set_drawn (drawn w + 32 * List.length placeholders) w)
  /\ Forall2 (fun e r => exists V, r = (placeholder_text e, key_eq e +:+ V)
                                  /\ well_shaped (generator_of e) V)
             placeholders (fresh_replacements w).
Proof.
  destruct (build_replacements_run placeholders w) as (reps & H & Hall).
  unfold fresh_replacements. rewrite H. now split.
Qed.

(** *** The loop *)

Lemma set_stdout_nil (w : world) : set_stdout (stdout w ++ []) w = w.
Proof. destruct w. unfold set_stdout. simpl. now rewrite app_nil_r. Qed.

Lemma set_stdout_twice (a b : list string) (w : world) :
  set_stdout (stdout (set_stdout (stdout w ++ a) w) ++ b) (set_stdout (stdout w ++ a) w)
  = set_stdout (stdout w ++ a ++ b) w.
Proof. unfold set_stdout. simpl. now rewrite app_assoc. Qed.

(** The loop is the pure computation, and it only prints. *)
Lemma apply_replacements_run (replacements : list (string * string))
    (content : string) (updated : bool) (w : world) :
  apply_replacements replacements content updated w
  = (Ok (replaced_text replacements content, replaced_any replacements content updated),
     set_stdout (stdout w ++ updated_lines replacements content) w).
Proof.
  revert content updated w.
  induction replacements as [|[old new] rest IH]; intros content updated w.
  - simpl. now rewrite run_ret, set_stdout_nil.
  - simpl. destruct (Str.contains old content).
    + rewrite run_bind, run_print. cbv beta iota. rewrite IH.
      fold (updated_line old).
      now rewrite (set_stdout_twice [updated_line old]).
    + apply IH.
Qed.

Lemma replace_absent_ne (old new s : string) :
  old <> EmptyString -> Str.contains old s = false -> Str.replace old new s = s.
Proof. destruct old; [congruence | intros _; apply replace_absent]. Qed.

Lemma replace_present_ne (old new s : string) :
  old <> EmptyString ->
  Str.contains old s = true -> Str.contains new (Str.replace old new s) = true.
Proof. destruct old; [congruence | intros _; apply replace_present]. Qed.

Lemma replace_keeps_ne (old new o s : string) :
  old <> EmptyString -> apart old o -> apart o old ->
  Str.contains o s = true -> Str.contains o (Str.replace old new s) = true.
Proof. destruct old; [congruence | intros _; apply replace_keeps]. Qed.

Lemma replace_creates_none_ne (old new o s : string) :
  old <> EmptyString -> apart new o -> apart o new ->
  Str.contains o s = false -> Str.contains o (Str.replace old new s) = false.
Proof.
  destruct old as [|a old']; [congruence|]. intros _ H1 H2 H.
  destruct (Str.contains o (Str.replace (String a old') new s)) eqn:E; [|reflexivity].
  apply replace_creates_none in E; auto. congruence.
Qed.

Lemma replace_removes_ne (old new s : string) :
  old <> EmptyString -> apart new old -> apart old new ->
  Str.contains old (Str.replace old new s) = false.
Proof. destruct old; [congruence | intros _; apply replace_removes]. Qed.

Section Loop.
Variable replacements : list (string * string).

(** What the table guarantees of the dictionary. *)
Hypothesis old_nonempty :
  forall r, In r replacements -> fst r <> EmptyString.
Hypothesis old_old :
  forall r r', In r replacements -> In r' replacements ->
               fst r <> fst r' -> apart (fst r) (fst r').
Hypothesis new_old :
  forall r r', In r replacements -> In r' replacements ->
               apart (snd r) (fst r') /\ apart (fst r') (snd r).

Lemma loop_keeps (rest : list (string * string)) (x content : string) :
  (forall r, In r rest -> fst r <> EmptyString /\ apart (fst r) x /\ apart x (fst r)) ->
  Str.contains x content = true ->
  Str.contains x (replaced_text rest content) = true.
Proof.
  revert content; induction rest as [|[old new] rest IH]; intros content H Hx;
    [exact Hx|].
  simpl. apply IH; [intros r Hr; apply H; now right|].
  destruct (H (old, new) (or_introl eq_refl)) as (Hne & H1 & H2).
  destruct (Str.contains old content); [|exact Hx].
  now apply replace_keeps_ne.
Qed.

Lemma loop_absent (rest : list (string * string)) (o content : string) :
  (forall r, In r rest -> fst r <> EmptyString /\ apart (snd r) o /\ apart o (snd r)) ->
  Str.contains o content = false \/ (exists new, In (o, new) rest) ->
  Str.contains o (replaced_text rest content) = false.
Proof.
  revert content; induction rest as [|[old new] rest IH]; intros content H Ho.
  - destruct Ho as [Ho|[new []]]. exact Ho.
  - simpl. apply IH; [intros r Hr; apply H; now right|].
    destruct (H (old, new) (or_introl eq_refl)) as (Hne & H1 & H2). simpl in *.
    destruct Ho as [Ho|[new' [E|Hin]]].
    + left. destruct (Str.contains old content); [|exact Ho].
      now apply replace_creates_none_ne.
    + injection E as <- <-. left.
      destruct (Str.contains old content) eqn:Hc; [|exact Hc].
      now apply replace_removes_ne.
    + right. now exists new'.
Qed.

Lemma loop_fires (rest : list (string * string)) (o new content : string) :
  List.NoDup (map fst rest) ->
  In (o, new) rest ->
  (forall r, In r rest ->
     fst r <> EmptyString
     /\ (fst r <> o -> apart (fst r) o /\ apart o (fst r)
                      /\ apart (fst r) new /\ apart new (fst r))) ->
  Str.contains o content = true ->
  In (updated_line o) (updated_lines rest content)
  /\ Str.contains new (replaced_text rest content) = true.
Proof.
  revert content; induction rest as [|[old0 new0] rest IH];
    intros content Hnd Hin H Ho; [destruct Hin|].
  simpl in Hnd. apply NoDup_cons_iff in Hnd as [Hfresh Hnd].
  destruct (H (old0, new0) (or_introl eq_refl)) as (Hne & Hap). simpl in Hne, Hap.
  destruct Hin as [E|Hin].
  - injection E as -> ->. simpl. rewrite Ho. split; [now left|].
    apply loop_keeps; [|now apply replace_present_ne].
    intros r Hr. destruct (H r (or_intror Hr)) as (Hrn & Hr').
    split; [exact Hrn|]. apply Hr'. intros Eo. apply Hfresh.
    rewrite <- Eo. now apply in_map.
  - assert (old0 <> o) as Hneq.
    { intros ->. apply Hfresh. now apply (in_map fst) in Hin. }
    destruct (Hap Hneq) as (H1 & H2 & _).
    simpl. destruct (Str.contains old0 content).
    + destruct (IH (Str.replace old0 new0 content)) as [Hl Ht]; auto.
      { intros r Hr. apply H. now right. }
      { now apply replace_keeps_ne. }
      split; [now right | exact Ht].
    + apply IH; auto. intros r Hr. apply H. now right.
Qed.

(** After the loop no placeholder of the dictionary is left. *)
Lemma loop_leaves_none (o new content : string) :
  In (o, new) replacements ->
  Str.contains o (replaced_text replacements content) = false.
Proof.
  intros Hin. apply loop_absent; [|right; now exists new].
  intros r Hr. split; [now apply old_nonempty|].
  apply (new_old r (o, new) Hr Hin).
Qed.

(** A placeholder of the file is reported and its replacement is there. *)
Lemma loop_replaces (o new content : string) :
  List.NoDup (map fst replacements) ->
  In (o, new) replacements ->
  Str.contains o content = true ->
  In (updated_line o) (updated_lines replacements content)
  /\ Str.contains new (replaced_text replacements content) = true.
Proof.
  intros Hnd Hin Ho. apply loop_fires; auto.
  intros r Hr. split; [now apply old_nonempty|]. intros Hne.
  destruct (new_old (o, new) r Hin Hr) as [H1 H2]. simpl in H1, H2.
  split; [|split; [|split; assumption]].
  - apply (old_old r (o, new)); auto.
  - apply (old_old (o, new) r); auto.
Qed.

End Loop.

Lemma replaced_any_true (replacements : list (string * string)) (content : string) :
  replaced_any replacements content true = true.
Proof.
  revert content; induction replacements as [|[old new] rest IH]; intros content;
    [reflexivity|].
  simpl. destruct (Str.contains old content); apply IH.
Qed.

Lemma replaced_any_false (replacements : list (string * string)) (content : string) :
  replaced_any replacements content false = false ->
  replaced_text replacements content = content
  /\ updated_lines replacements content = [].
Proof.
  revert content; induction replacements as [|[old new] rest IH]; intros content H;
    [now split|].
  simpl in *. destruct (Str.contains old content).
  - now rewrite replaced_any_true in H.
  - now apply IH.
Qed.

(** Where no placeholder occurs the loop does nothing. *)
Lemma loop_noop (replacements : list (string * string)) (content : string)
    (updated : bool) :
  (forall r, In r replacements -> Str.contains (fst r) content = false) ->
  replaced_text replacements content = content
  /\ replaced_any replacements content updated = updated
  /\ updated_lines replacements content = [].
Proof.
  induction replacements as [|[old new] rest IH]; intros H; [repeat split|].
  pose proof (H (old, new) (or_introl eq_refl)) as E. simpl in E.
  simpl. rewrite E.
  apply IH. intros r Hr. apply H. now right.
Qed.

Lemma Forall2_combine_In {A B} (P : A -> B -> Prop) (l : list A) (k : list B)
    (a : A) (b : B) :
  Forall2 P l k -> In (a, b) (combine l k) -> P a b.
Proof.
  induction 1 as [|x y l k Hxy _ IH]; simpl; [tauto|].
  intros [E|Hin]; [now injection E as <- <- | now apply IH].
Qed.

Lemma Forall2_In_r {A B} (P : A -> B -> Prop) (l : list A) (k : list B) (b : B) :
  Forall2 P l k -> In b k -> exists a, In (a, b) (combine l k).
Proof.
  induction 1 as [|x y l k Hxy _ IH]; simpl; [tauto|].
  intros [<-|Hin]; [exists x; now left|].
  destruct (IH Hin) as [a Ha]. exists a. now right.
Qed.

Lemma fresh_texts (w : world) :
  map fst (fresh_replacements w) = map placeholder_text placeholders.
Proof.
  destruct (fresh_replacements_spec w) as [_ H].
  induction H as [|e r l k (V & -> & _) _ IH]; simpl; [reflexivity | now rewrite IH].
Qed.

Lemma placeholder_texts_distinct : List.NoDup (map placeholder_text placeholders).
Proof. apply NoDup_ListNoDup. compute_done. Qed.

Lemma fresh_text_is_placeholder (w : world) (r : string * string) :
  In r (fresh_replacements w) ->
  exists e, In e placeholders /\ fst r = placeholder_text e.
Proof.
  intros Hr. apply (in_map fst) in Hr. rewrite fresh_texts in Hr.
  apply in_map_iff in Hr as (e & E & He). now exists e.
Qed.



(** *** The values do not depend on what was printed *)

Lemma entropy_only_ret {A} (a : A) : entropy_only (mret a : M A).
Proof. intros w w' H. now split. Qed.

Lemma entropy_only_raise {A} (e : exn) : entropy_only (@raise A e).
Proof. intros w w' H. now split. Qed.

Lemma entropy_only_bind {A B} (m : M A) (k : A -> M B) :
  entropy_only m -> (forall a, entropy_only (k a)) -> entropy_only (m ≫= k).
Proof.
  intros Hm Hk w w' H. rewrite !run_bind.
  destruct (Hm w w' H) as [E1 E2].
  destruct (m w) as [[a|e] w1], (m w') as [[a'|e'] w1']; simpl in *;
    try discriminate; injection E1 as <-; [now apply Hk | now split].
Qed.

Lemma entropy_only_randbelow (bound : nat) : entropy_only (randbelow bound).
Proof.
  intros w w' [He Hd]. rewrite !run_randbelow. simpl.
  unfold same_entropy. wsimpl. now rewrite He, Hd.
Qed.

Lemma entropy_only_generate (g : generator) : entropy_only (generate g).
Proof.
  destruct g.
  - change (generate Alnum) with (generate_secret 32).
    generalize 32. intros n. induction n as [|n IH]; simpl.
    + apply entropy_only_ret.
    + apply entropy_only_bind.
      * unfold secrets_choice. apply entropy_only_bind;
          [apply entropy_only_randbelow|].
        intros i. destruct (String.get i alphabet);
          [apply entropy_only_ret | apply entropy_only_raise].
      * intros c. apply entropy_only_bind; [exact IH|].
        intros rest. apply entropy_only_ret.
  - change (generate Hex) with (secrets_token_hex 32).
    generalize 32. intros n. induction n as [|n IH]; simpl.
    + apply entropy_only_ret.
    + apply entropy_only_bind; [apply entropy_only_randbelow|].
      intros b. apply entropy_only_bind; [exact IH|].
      intros rest. apply entropy_only_ret.
Qed.

Lemma entropy_only_build (table : list (string * string * generator)) :
  entropy_only (build_replacements table).
Proof.
  induction table as [|[[old keq] g] table IH]; simpl.
  - apply entropy_only_ret.
  - apply entropy_only_bind; [apply entropy_only_generate|].
    intros V. apply entropy_only_bind; [exact IH|].
    intros rest. apply entropy_only_ret.
Qed.

Lemma fresh_replacements_same (w w' : world) :
  same_entropy w w' -> fresh_replacements w = fresh_replacements w'.
Proof.
  intros H. destruct (entropy_only_build placeholders w w' H) as [E _].
  unfold fresh_replacements.
  destruct (build_replacements placeholders w) as [[r|e] w1],
           (build_replacements placeholders w') as [[r'|e'] w1']; simpl in E;
    congruence.
Qed.

(** *** The properties of the step *)

Lemma tails_clean_on_spec
    (pairs : list ((string * string * generator) * (string * string)))
    (e : string * string * generator) (r : string * string) :
  tails_clean_on pairs = true -> In (e, r) pairs ->
  generator_of e = Alnum -> tail_clean (fresh_value e r) = true.
Proof.
  intros H Hin Hg. unfold tails_clean_on in H. rewrite forallb_forall in H.
  specialize (H (e, r) Hin). cbn [fst snd] in H. rewrite Hg in H. exact H.
Qed.

Lemma alnum_tails_clean_unfold (w : world) :
  tails_clean_on (combine placeholders (fresh_replacements w)) = alnum_tails_clean w.
Proof. unfold alnum_tails_clean. reflexivity. Qed.

(** What the table and the shape of the values give for the dictionary. *)
Lemma fresh_entry (w : world) (r : string * string) :
  alnum_tails_clean w = true ->
  In r (fresh_replacements w) ->
  exists e V, In e placeholders
              /\ r = (placeholder_text e, key_eq e +:+ V)
              /\ well_shaped (generator_of e) V
              /\ (generator_of e = Alnum -> tail_clean V = true).
Proof.
  intros Hclean Hr. rewrite <- alnum_tails_clean_unfold in Hclean.
  destruct (fresh_replacements_spec w) as [_ Hall].
  revert Hclean Hall Hr. generalize (fresh_replacements w). intros reps Hclean Hall Hr.
  destruct (Forall2_In_r _ _ _ _ Hall Hr) as [e He].
  destruct (Forall2_combine_In _ _ _ _ _ Hall He) as (V & -> & Hshape).
  assert (In e placeholders) as Hep by (eapply in_combine_l; exact He).
  exists e, V. split; [exact Hep|]. split; [reflexivity|].
  split; [exact Hshape|]. intros Hg.
  pose proof (tails_clean_on_spec _ _ _ Hclean He Hg) as Ht.
  unfold fresh_value, key_eq in Ht. cbn [fst snd] in Ht.
  fold (key_eq e) in Ht. rewrite drop_app_length in Ht. exact Ht.
Qed.

(** The state [update_env_secrets] reaches on an environment file. *)
Lemma update_env_secrets_run (w : world) (content : string) :
  cwd w = [] ->
  fs w !! ".env" = Some (File content) ->
  let reps := fresh_replacements w in
  let content' := replaced_text reps content in
  exists w',
    update_env_secrets w = (Ok tt, w')
    /\ fs w' !! ".env" = Some (File content')
    /\ (replaced_any reps content false = false -> fs w' = fs w /\ events w' = events w)
    /\ stdout w' = stdout w ++ ["Checking and updating environment secrets..."]
                            ++ updated_lines reps content
                            ++ [if replaced_any reps content false
                                then "Environment secrets updated successfully!"
                                else "Environment secrets are already configured."].
Proof.
  intros Hcwd Hfile reps content'.
  unfold update_env_secrets. mrun. rewrite Hcwd, resolve_nil, Hfile. mrun.
  unfold open_read. wsimpl. rewrite Hcwd, resolve_nil, Hfile. cbv beta iota.
  rewrite run_bind.
  match goal with |- context [build_replacements placeholders ?w0] =>
    rewrite (proj1 (fresh_replacements_spec w0));
    replace (fresh_replacements w0) with reps
      by (apply fresh_replacements_same; split; reflexivity)
  end.
  cbv beta iota. rewrite run_bind, apply_replacements_run. cbv beta iota.
  fold content'. destruct (replaced_any reps content false) eqn:Hany.
  - rewrite run_bind. unfold open_write. wsimpl.
    rewrite Hcwd, resolve_nil, Hfile.
    change (parent_is_dir (fs w) ".env") with true. cbv beta iota. mrun.
    eexists. split; [reflexivity|]. wsimpl.
    split; [apply lookup_insert_eq|]. split; [discriminate|].
    rewrite <- !app_assoc. reflexivity.
  - mrun. eexists. split; [reflexivity|]. wsimpl.
    destruct (replaced_any_false reps content Hany) as [E _].
    unfold content'. rewrite E. split; [exact Hfile|]. split; [now split|].
    rewrite <- !app_assoc. reflexivity.
Qed.




(** ** The search service: first-run detection and settings *)

Lemma detect_first_run_total (w : world) :
  exists b w', detect_first_run w = (Ok b, w').
Proof.
  unfold detect_first_run.
  rewrite run_try, run_bind, run_subprocess.
  destruct (tool w (events w) docker_ps_cmd (cwd w) (fs w)) as [rc out f'|e].
  - destruct (true && negb (rc =? 0)%Z); cbv beta iota; [mrun; eauto|].
    destruct (first_nonempty (Str.split newline (Str.strip out))) as [name|].
    + mrun. rewrite run_subprocess. wsimpl.
      match goal with |- context [tool ?a ?b ?c ?d ?e] =>
        destruct (tool a b c d e) as [rc2 out2 f2|e2] end.
      * cbn [andb]. cbv beta iota.
        destruct (Str.contains "found" out2); mrun; eauto.
      * cbv beta iota. mrun. eauto.
    + mrun. eauto.
  - cbv beta iota. mrun. eauto.
Qed.

Lemma detect_first_run_fails_open (w : world) :
  detection_raises w -> exists w', detect_first_run w = (Ok true, w').
Proof.
  unfold detect_first_run.
  intros [[e He]|[(rc & out & f' & He & Hrc)|(out & f' & name & e & He & Hn & Hx)]];
    rewrite run_try, run_bind, run_subprocess, He.
  - cbv beta iota. mrun. eauto.
  - apply Z.eqb_neq in Hrc. rewrite Hrc. cbn [andb negb]. cbv beta iota.
    mrun. eauto.
  - change (0 =? 0)%Z with true. cbn [andb negb]. cbv beta iota.
    rewrite Hn. mrun. rewrite run_subprocess. wsimpl. rewrite Hx.
    cbv beta iota. mrun. eauto.
Qed.

(** C8.  The detection never raises; and whenever querying the container
    runtime raises (see [detection_raises]) it answers that this is a first
    run. *)
Theorem detection_fails_open (w : world) :
  (exists b w', detect_first_run w = (Ok b, w'))
  /\ (detection_raises w -> exists w', detect_first_run w = (Ok true, w')).
Proof.
  split; [apply detect_first_run_total | apply detect_first_run_fails_open].
Qed.

Lemma detection_fails_open_witness :
  let w := host fresh_fs [] 0 (fun _ => 0) no_docker_tool in
  exists w', detect_first_run w = (Ok true, w').
Proof.
  apply (detection_fails_open (host fresh_fs [] 0 (fun _ => 0) no_docker_tool)).
  left. eexists. reflexivity.
Defined.

Lemma seed_settings_total (base settings : string) (w : world) :
  exists b w', seed_settings base settings w = (Ok b, w').
Proof.
  unfold seed_settings. rewrite run_try, run_bind.
  destruct (shutil_copyfile base settings w) as [[[]|e] w1]; mrun; eauto.
Qed.

Lemma patch_secret_key_total (settings : string) (w : world) :
  exists w', patch_secret_key settings w = (Ok tt, w').
Proof.
  unfold patch_secret_key. rewrite run_try.
  destruct (substitute_secret_key settings w) as [[[]|e] w1]; [eauto|].
  mrun. rewrite run_print_all. eauto.
Qed.

Lemma generate_searxng_secret_key_total (w : world) :
  exists w', generate_searxng_secret_key w = (Ok tt, w').
Proof.
  unfold generate_searxng_secret_key. mrun.
  destruct (fs w !! resolve (cwd w) (path_join ["searxng"; "settings-base.yml"]));
    mrun; [|eauto].
  destruct (fs w !! resolve (cwd w) (path_join ["searxng"; "settings.yml"])); mrun.
  - apply patch_secret_key_total.
  - match goal with |- context [seed_settings ?b ?s ?w0] =>
      destruct (seed_settings_total b s w0) as ([|] & w1 & ->) end; mrun.
    + apply patch_secret_key_total.
    + eauto.
Qed.



(** ** The manifest sync *)

Ltac tool_cases :=
  repeat match goal with
  | |- context [match tool ?w ?h ?argv ?d ?f with _ => _ end] =>
      let E := fresh "E" in
      destruct (tool w h argv d f) as [[| |] ? ?|?] eqn:E; cbn [Z.eqb];
      cbv beta iota zeta; wsimpl
  end.

Ltac trace_done :=
  eexists; split; [rewrite <- ?app_assoc; reflexivity | eexists; reflexivity].

(** C6.  With the vendored directory absent, the step issues the clone, the
    sparse-checkout initialisation, the path restriction and the branch
    checkout, in that order: always a prefix of that sequence (a failing
    invocation aborts the step), and the whole of it when each of them exits
    with status 0 and the clone leaves the directory.  With the vendored
    directory present it issues at most the pull, and no clone. *)
Theorem sync_is_existence_gated (w : world) :
  cwd w = [] ->
  (fs w !! "supabase" = None ->
     (exists issued, events (snd (clone_supabase_repo w)) = events w ++ issued
                     /\ issued `prefix_of` clone_sequence [])
     /\ (forall o1 f1 o2 f2 o3 f3 o4 f4,
           tool w (events w) git_clone [] (fs w) = Exited 0 o1 f1 ->
           f1 !! "supabase" = Some Dir ->
           tool w (events w ++ [Spawn git_clone []]) git_sparse_init ["supabase"] f1
             = Exited 0 o2 f2 ->
           tool w (events w ++ [Spawn git_clone []; Spawn git_sparse_init ["supabase"]])
                git_sparse_set ["supabase"] f2
             = Exited 0 o3 f3 ->
           tool w (events w ++ [Spawn git_clone []; Spawn git_sparse_init ["supabase"];
                                Spawn git_sparse_set ["supabase"]])
                git_checkout ["supabase"] f3
             = Exited 0 o4 f4 ->
           exists w', clone_supabase_repo w = (Ok tt, w')
                      /\ events w' = events w ++ clone_sequence []
                      /\ fs w' = f4 /\ cwd w' = []))
  /\ (forall n, fs w !! "supabase" = Some n ->
        (exists issued, events (snd (clone_supabase_repo w)) = events w ++ issued
                        /\ issued `prefix_of` [Spawn git_pull ["supabase"]])
        /\ (forall o f', n = Dir ->
              tool w (events w) git_pull ["supabase"] (fs w) = Exited 0 o f' ->
              exists w', clone_supabase_repo w = (Ok tt, w')
                         /\ events w' = events w ++ [Spawn git_pull ["supabase"]]
                         /\ fs w' = f' /\ cwd w' = [])).
Proof.
  intros Hcwd. split.
  - intros Habsent. split.
    + unfold clone_supabase_repo. mrun. rewrite Hcwd, resolve_nil, Habsent. mrun.
      rewrite run_run_command. wsimpl. rewrite Hcwd. tool_cases; try trace_done.
      mrun. rewrite run_chdir. wsimpl. rewrite Hcwd, resolve_nil.
      change ("supabase" =? "..")%string with false. cbv beta iota.
      destruct (fs' !! "supabase") as [[|]|]; cbv beta iota; wsimpl; try trace_done.
      mrun. rewrite run_run_command. wsimpl. tool_cases; try trace_done.
      mrun. rewrite run_run_command. wsimpl. tool_cases; try trace_done.
      mrun. rewrite run_run_command. wsimpl. tool_cases; try trace_done.
      all: mrun; rewrite run_chdir; wsimpl; trace_done.
    + intros o1 f1 o2 f2 o3 f3 o4 f4 H1 Hdir H2 H3 H4.
      unfold clone_supabase_repo. mrun. rewrite Hcwd, resolve_nil, Habsent. mrun.
      rewrite run_run_command. wsimpl. rewrite Hcwd, H1. cbv beta iota zeta. mrun.
      rewrite run_chdir. wsimpl. rewrite Hcwd, resolve_nil, Hdir.
      change ("supabase" =? "..")%string with false. cbv beta iota. cbn [app].
      mrun. rewrite run_run_command. wsimpl. rewrite H2. cbv beta iota zeta. mrun.
      rewrite run_run_command. wsimpl. rewrite <- app_assoc. cbn [app].
      rewrite H3. cbv beta iota zeta. mrun.
      rewrite run_run_command. wsimpl. rewrite <- !app_assoc. cbn [app].
      rewrite H4. cbv beta iota zeta. mrun.
      rewrite run_chdir. wsimpl.
      change (".." =? "..")%string with true. cbv beta iota.
      eexists. split; [reflexivity|]. wsimpl.
      split; [repeat rewrite <- app_assoc; reflexivity|]. split; reflexivity.
  - intros n Hpresent. split.
    + unfold clone_supabase_repo. mrun. rewrite Hcwd, resolve_nil, Hpresent. mrun.
      rewrite run_chdir. wsimpl. rewrite Hcwd, resolve_nil, Hpresent.
      change ("supabase" =? "..")%string with false. cbv beta iota.
      destruct n; cbv beta iota; wsimpl; [exists []; split; [now rewrite app_nil_r | now exists [Spawn git_pull ["supabase"]]]|].
      mrun. rewrite run_run_command. wsimpl. tool_cases; try trace_done.
      all: mrun; rewrite run_chdir; wsimpl; trace_done.
    + intros o f' -> Hpull.
      unfold clone_supabase_repo. mrun. rewrite Hcwd, resolve_nil, Hpresent. mrun.
      rewrite run_chdir. wsimpl. rewrite Hcwd, resolve_nil, Hpresent.
      change ("supabase" =? "..")%string with false. cbv beta iota. cbn [app].
      mrun. rewrite run_run_command. wsimpl. rewrite Hpull. cbv beta iota zeta. mrun.
      rewrite run_chdir. wsimpl.
      change (".." =? "..")%string with true. cbv beta iota.
      eexists. split; [reflexivity|]. wsimpl. repeat split.
Qed.

Lemma sync_is_existence_gated_witness :
  let w := host fresh_fs [] 0 (fun _ => 0) working_tool in
  exists w', clone_supabase_repo w = (Ok tt, w')
             /\ events w' = events w ++ clone_sequence []
             /\ fs w' = <["supabase/docker" := Dir]> (<["supabase" := Dir]> fresh_fs)
             /\ cwd w' = [].
Proof.
  intros w.
  destruct (sync_is_existence_gated w eq_refl) as [Habsent _].
  destruct (Habsent eq_refl) as [_ Hrun].
  apply (Hrun EmptyString (<["supabase" := Dir]> fresh_fs)
              EmptyString (<["supabase" := Dir]> fresh_fs)
              EmptyString (<["supabase" := Dir]> fresh_fs)
              EmptyString (<["supabase/docker" := Dir]> (<["supabase" := Dir]> fresh_fs)));
    reflexivity.
Defined.

(** ** The order of the start-up *)

Lemma emits_same {A} (P : event -> Prop) (m : M A) :
  (forall w, events (snd (m w)) = events w) -> emits P m.
Proof.
  intros H w. exists []. rewrite H, app_nil_r. split; [reflexivity | constructor].
Qed.

Lemma emits_ret {A} (P : event -> Prop) (a : A) : emits P (mret a : M A).
Proof. apply emits_same. reflexivity. Qed.

Lemma emits_raise {A} (P : event -> Prop) (e : exn) : emits P (@raise A e).
Proof. apply emits_same. reflexivity. Qed.

Lemma emits_print (P : event -> Prop) (line : string) : emits P (print line).
Proof. apply emits_same. reflexivity. Qed.

Lemma emits_get {A} (P : event -> Prop) (f : world -> A) : emits P (get f).
Proof. apply emits_same. reflexivity. Qed.

Lemma emits_bind {A B} (P : event -> Prop) (m : M A) (k : A -> M B) :
  emits P m -> (forall a, emits P (k a)) -> emits P (m ≫= k).
Proof.
  intros Hm Hk w. rewrite run_bind.
  destruct (Hm w) as (d1 & E1 & F1).
  destruct (m w) as [[a|e] w1]; cbn [snd] in *.
  - destruct (Hk a w1) as (d2 & E2 & F2).
    exists (d1 ++ d2). rewrite E2, E1, app_assoc. split; [reflexivity|].
    apply Forall_app. split; assumption.
  - exists d1. split; assumption.
Qed.

Lemma emits_try {A} (P : event -> Prop) (m : M A) (h : exn -> M A) :
  emits P m -> (forall e, emits P (h e)) -> emits P (try_except m h).
Proof.
  intros Hm Hh w. rewrite run_try.
  destruct (Hm w) as (d1 & E1 & F1).
  destruct (m w) as [[a|e] w1]; cbn [snd] in *.
  - exists d1. split; assumption.
  - destruct (Hh e w1) as (d2 & E2 & F2).
    exists (d1 ++ d2). rewrite E2, E1, app_assoc. split; [reflexivity|].
    apply Forall_app. split; assumption.
Qed.

Lemma emits_one {A} (P : event -> Prop) (m : M A) :
  (forall w, events (snd (m w)) = events w
             \/ exists e, events (snd (m w)) = events w ++ [e] /\ P e) ->
  emits P m.
Proof.
  intros H w. destruct (H w) as [E|(e & E & He)].
  - exists []. rewrite E, app_nil_r. split; [reflexivity | constructor].
  - exists [e]. split; [exact E | repeat constructor; exact He].
Qed.

Lemma emits_open_read (P : event -> Prop) (p : string) : emits P (open_read p).
Proof.
  apply emits_same. intros w. unfold open_read.
  destruct (fs w !! resolve (cwd w) p) as [[|]|]; reflexivity.
Qed.

Lemma emits_open_write (P : event -> Prop) (p data : string) :
  (forall q, P (Wrote q data)) -> emits P (open_write p data).
Proof.
  intros HP. apply emits_one. intros w. unfold open_write.
  destruct (fs w !! resolve (cwd w) p) as [[|]|];
    try (left; reflexivity);
    destruct (parent_is_dir (fs w) (resolve (cwd w) p));
    try (left; reflexivity); right; eexists; split; try reflexivity; apply HP.
Qed.

Lemma emits_copyfile (P : event -> Prop) (src dst : string) :
  (forall q data, P (Wrote q data)) -> emits P (shutil_copyfile src dst).
Proof.
  intros HP. unfold shutil_copyfile.
  apply emits_bind; [apply emits_get|]. intros same.
  apply emits_bind; [apply emits_get|]. intros present.
  destruct (same && present); [apply emits_raise|].
  apply emits_bind; [apply emits_open_read|]. intros data.
  apply emits_open_write. intros q. apply HP.
Qed.

Lemma emits_move (P : event -> Prop) (src dst : string) :
  (forall a b, P (Moved a b)) -> emits P (shutil_move src dst).
Proof.
  intros HP. apply emits_one. intros w. unfold shutil_move.
  destruct (fs w !! resolve (cwd w) src) as [n|]; [|left; reflexivity].
  destruct (fs w !! resolve (cwd w) dst) as [[|]|];
    match goal with |- context [fs w !! ?p] =>
      destruct (fs w !! p) as [[|]|] end;
    try (left; reflexivity);
    try (destruct n; try (left; reflexivity));
    try (match goal with |- context [parent_is_dir ?f ?p] =>
           destruct (parent_is_dir f p) end; try (left; reflexivity));
    right; eexists; (split; [reflexivity | apply HP]).
Qed.

Lemma emits_chdir (P : event -> Prop) (d : string) : emits P (os_chdir d).
Proof.
  apply emits_same. intros w. rewrite run_chdir.
  destruct (String.eqb d ".."); [reflexivity|].
  destruct (fs w !! resolve (cwd w) d) as [[|]|]; reflexivity.
Qed.

Lemma emits_subprocess (P : event -> Prop) (argv : list string) (check : bool) :
  (forall d, P (Spawn argv d)) -> emits P (subprocess_run argv check).
Proof.
  intros HP. apply emits_one. intros w. right. exists (Spawn argv (cwd w)).
  split; [|apply HP]. rewrite run_subprocess.
  destruct (tool w (events w) argv (cwd w) (fs w)) as [rc out f'|e]; [|reflexivity].
  destruct (check && negb (rc =? 0)%Z); reflexivity.
Qed.

Lemma emits_run_command (P : event -> Prop) (cmd : list string) :
  (forall d, P (Spawn cmd d)) -> emits P (run_command cmd).
Proof.
  intros HP. unfold run_command.
  apply emits_bind; [apply emits_print|]. intros _.
  apply emits_bind; [now apply emits_subprocess|]. intros _. apply emits_ret.
Qed.

Lemma emits_check_output (P : event -> Prop) (argv : list string) :
  (forall d, P (Spawn argv d)) -> emits P (check_output_decoded argv).
Proof.
  intros HP. unfold check_output_decoded.
  apply emits_bind; [now apply emits_subprocess|]. intros [rc out].
  apply emits_bind; [apply emits_get|]. intros dec.
  destruct (dec out); [apply emits_ret | apply emits_raise].
Qed.

Lemma emits_input (P : event -> Prop) (prompt : string) : emits P (input prompt).
Proof.
  apply emits_same. intros w. rewrite run_input. destruct (stdin w); reflexivity.
Qed.

Lemma emits_print_all (P : event -> Prop) (lines : list string) :
  emits P (print_all lines).
Proof. apply emits_same. intros w. now rewrite run_print_all. Qed.

Lemma quiet_wrote (q data : string) : quiet (Wrote q data).
Proof. reflexivity. Qed.

Lemma quiet_moved (a b : string) : quiet (Moved a b).
Proof. reflexivity. Qed.

(** *** The steps before the teardown issue no sequencing event *)

Lemma update_env_secrets_quiet : emits quiet update_env_secrets.
Proof.
  unfold update_env_secrets. cbv zeta.
  apply emits_bind; [apply emits_get|]. intros present.
  destruct (negb present); [apply emits_print|].
  apply emits_bind; [apply emits_print|]. intros _.
  apply emits_bind; [apply emits_open_read|]. intros content.
  apply emits_bind.
  { apply emits_same. intros w.
    destruct (build_replacements_run placeholders w) as (reps & -> & _). reflexivity. }
  intros reps. apply emits_bind.
  { apply emits_same. intros w. now rewrite apply_replacements_run. }
  intros [content' [|]]; [|apply emits_print].
  apply emits_bind; [|intros _; apply emits_print].
  apply emits_open_write. intros q. apply quiet_wrote.
Qed.

Lemma clean_supabase_database_quiet : emits quiet clean_supabase_database.
Proof.
  unfold clean_supabase_database. cbv zeta.
  apply emits_bind; [apply emits_get|]. intros present.
  destruct present; [|apply emits_ret].
  do 3 (apply emits_bind; [apply emits_print|]; intros _).
  apply emits_bind; [apply emits_input|]. intros line.
  destruct (String.eqb (Str.strip (Str.lower line)) "y"); [|apply emits_ret].
  apply emits_bind; [apply emits_print|]. intros _.
  apply emits_bind; [apply emits_get|]. intros t.
  apply emits_bind; [apply emits_move; intros; apply quiet_moved|]. intros _.
  do 2 (apply emits_bind; [apply emits_print|]; intros _).
  apply emits_ret.
Qed.

Lemma clone_supabase_repo_quiet : emits quiet clone_supabase_repo.
Proof.
  unfold clone_supabase_repo.
  apply emits_bind; [apply emits_get|]. intros present.
  destruct (negb present).
  - apply emits_bind; [apply emits_print|]. intros _.
    apply emits_bind; [apply emits_run_command; reflexivity|]. intros _.
    apply emits_bind; [apply emits_chdir|]. intros _.
    do 3 (apply emits_bind; [apply emits_run_command; reflexivity|]; intros _).
    apply emits_chdir.
  - apply emits_bind; [apply emits_print|]. intros _.
    apply emits_bind; [apply emits_chdir|]. intros _.
    apply emits_bind; [apply emits_run_command; reflexivity|]. intros _.
    apply emits_chdir.
Qed.

Lemma prepare_supabase_env_quiet : emits quiet prepare_supabase_env.
Proof.
  unfold prepare_supabase_env. cbv zeta.
  apply emits_bind; [apply emits_print|]. intros _.
  apply emits_copyfile. intros; apply quiet_wrote.
Qed.

Lemma substitute_secret_key_quiet (p : string) : emits quiet (substitute_secret_key p).
Proof.
  unfold substitute_secret_key.
  apply emits_bind; [apply emits_get|]. intros sys.
  apply emits_bind; [|intros _; apply emits_print].
  destruct (String.eqb sys "Windows"); [|destruct (String.eqb sys "Darwin")].
  - apply emits_bind; [apply emits_print|]. intros _.
    apply emits_bind; [apply emits_subprocess; reflexivity|]. intros _.
    apply emits_ret.
  - apply emits_bind; [apply emits_print|]. intros _.
    apply emits_bind; [apply emits_check_output; reflexivity|]. intros out.
    apply emits_bind; [apply emits_subprocess; reflexivity|]. intros _.
    apply emits_ret.
  - apply emits_bind; [apply emits_print|]. intros _.
    apply emits_bind; [apply emits_check_output; reflexivity|]. intros out.
    apply emits_bind; [apply emits_subprocess; reflexivity|]. intros _.
    apply emits_ret.
Qed.

Lemma generate_searxng_secret_key_quiet : emits quiet generate_searxng_secret_key.
Proof.
  unfold generate_searxng_secret_key. cbv zeta.
  apply emits_bind; [apply emits_print|]. intros _.
  apply emits_bind; [apply emits_get|]. intros base_present.
  destruct (negb base_present); [apply emits_print|].
  apply emits_bind; [apply emits_get|]. intros settings_present.
  apply emits_bind.
  { destruct (negb settings_present).
    - apply emits_bind; [apply emits_print|]. intros _.
      unfold seed_settings. apply emits_try.
      + apply emits_bind; [apply emits_copyfile; intros; apply quiet_wrote|].
        intros _. apply emits_bind; [apply emits_print|]. intros _. apply emits_ret.
      + intros e. apply emits_bind; [apply emits_print|]. intros _. apply emits_ret.
    - apply emits_bind; [apply emits_print|]. intros _. apply emits_ret. }
  intros seeded. destruct (negb seeded); [apply emits_ret|].
  apply emits_bind; [apply emits_print|]. intros _.
  unfold patch_secret_key. apply emits_try; [apply substitute_secret_key_quiet|].
  intros e. apply emits_bind; [apply emits_print|]. intros _. apply emits_print_all.
Qed.

Lemma detect_first_run_quiet : emits quiet detect_first_run.
Proof.
  unfold detect_first_run. apply emits_try.
  - apply emits_bind; [apply emits_subprocess; reflexivity|]. intros [rc out].
    destruct (first_nonempty (Str.split newline (Str.strip out))) as [name|].
    + apply emits_bind; [apply emits_print|]. intros _.
      apply emits_bind; [apply emits_subprocess; reflexivity|]. intros [rc2 out2].
      destruct (Str.contains "found" out2);
        (apply emits_bind; [apply emits_print|]; intros _; apply emits_ret).
    + apply emits_bind; [apply emits_print|]. intros _. apply emits_ret.
  - intros e. apply emits_bind; [apply emits_print|]. intros _. apply emits_ret.
Qed.

Lemma check_and_fix_quiet : emits quiet check_and_fix_docker_compose_for_searxng.
Proof.
  unfold check_and_fix_docker_compose_for_searxng. cbv zeta.
  apply emits_bind; [apply emits_get|]. intros present.
  destruct (negb present); [apply emits_print|].
  apply emits_try; [|intros e; apply emits_print].
  apply emits_bind; [apply emits_open_read|]. intros content.
  apply emits_bind; [apply detect_first_run_quiet|]. intros is_first_run.
  unfold toggle_cap_drop.
  destruct (is_first_run && Str.contains active_directive content).
  - apply emits_bind; [apply emits_print|]. intros _.
    apply emits_bind; [|intros _; apply emits_print].
    apply emits_open_write. intros; apply quiet_wrote.
  - destruct (negb is_first_run && Str.contains commented_directive content);
      [|apply emits_ret].
    apply emits_bind; [apply emits_print|]. intros _.
    apply emits_open_write. intros; apply quiet_wrote.
Qed.

Lemma ordered_bind {A B} (a : args) (m : M A) (k : A -> M B) :
  emits quiet m -> (forall x, startup_ordered a (k x)) ->
  startup_ordered a (m ≫= k).
Proof.
  intros Hm Hk w. rewrite run_bind.
  destruct (Hm w) as (d1 & E1 & F1).
  destruct (m w) as [[x|e] w1]; cbn [fst snd] in *.
  - destruct (Hk x w1) as (before & tail & d & E2 & F2 & Hp & Hok).
    exists (d1 ++ before), tail, d. rewrite E2, E1, !app_assoc.
    split; [reflexivity|]. split; [apply Forall_app; split; assumption|].
    split; assumption.
  - exists d1, [], []. rewrite app_nil_r.
    split; [exact E1|]. split; [exact F1|].
    split; [apply prefix_nil | discriminate].
Qed.

Ltac tail_done :=
  eexists [], _, _; split;
    [cbn [app]; repeat rewrite <- app_assoc; reflexivity
    |split; [constructor
            |split; [eexists; reflexivity
                    |first [discriminate | reflexivity
                           | intros ? ?; try discriminate; reflexivity]]]].

(** From the teardown on, the events are the start-up sequence. *)
Lemma startup_tail_ordered (a : args) :
  startup_ordered a
    (stop_existing_containers (profile_name (profile a));;
     start_supabase (environment_name (environment a)) (rebuild a);;
     print "Waiting for Supabase to initialize...";;
     time_sleep 15;;
     start_local_ai (profile_name (profile a)) (environment_name (environment a))
                    (rebuild a);;
     print (String newline (repeat_string "=" 60));;
     print "Services are starting up!";;
     print "Supabase Studio: http://localhost:8000";;
     print "n8n: http://localhost:5678";;
     print "Open WebUI: http://localhost:3000";;
     print (repeat_string "=" 60)).
Proof.
  intros w. unfold startup_sequence.
  set (stop := stop_cmd (profile_name (profile a))).
  set (supa := supabase_cmd (environment_name (environment a)) (rebuild a)).
  set (ai := local_ai_cmd (profile_name (profile a))
                          (environment_name (environment a)) (rebuild a)).
  unfold stop_existing_containers, start_supabase, start_local_ai.
  fold stop supa ai.
  rewrite run_bind, run_bind, run_print. cbv beta iota.
  rewrite run_run_command. wsimpl.
  destruct (tool w (events w) stop (cwd w) (fs w)) as [[| |] o1 f1|e1];
    cbn [Z.eqb]; cbv beta iota zeta; wsimpl; try tail_done.
  rewrite run_bind, run_bind, run_print. cbv beta iota.
  assert (forall w0, (if rebuild a
                      then print "Rebuilding Supabase containers to pick up environment changes..."
                      else mret tt) w0
                     = (Ok tt, set_stdout (stdout w0 ++ if rebuild a then ["Rebuilding Supabase containers to pick up environment changes..."] else []) w0)) as Hreb1.
  { intros w0. destruct (rebuild a); [reflexivity|].
    rewrite run_ret. destruct w0. unfold set_stdout. cbn. now rewrite app_nil_r. }
  rewrite run_bind, Hreb1. cbv beta iota.
  rewrite run_run_command. wsimpl.
  match goal with |- context [tool w ?h supa ?d ?f] =>
    destruct (tool w h supa d f) as [[| |] o2 f2|e2] end;
    cbn [Z.eqb]; cbv beta iota zeta; wsimpl; try tail_done.
  rewrite run_bind, run_print. cbv beta iota.
  rewrite run_bind, run_sleep. cbv beta iota.
  rewrite run_bind, run_bind, run_print. cbv beta iota.
  assert (forall w0, (if rebuild a
                      then print "Rebuilding local AI containers to pick up environment changes..."
                      else mret tt) w0
                     = (Ok tt, set_stdout (stdout w0 ++ if rebuild a then ["Rebuilding local AI containers to pick up environment changes..."] else []) w0)) as Hreb2.
  { intros w0. destruct (rebuild a); [reflexivity|].
    rewrite run_ret. destruct w0. unfold set_stdout. cbn. now rewrite app_nil_r. }
  rewrite run_bind, Hreb2. cbv beta iota.
  rewrite run_run_command. wsimpl.
  match goal with |- context [tool w ?h ai ?d ?f] =>
    destruct (tool w h ai d f) as [[| |] o3 f3|e3] end;
    cbn [Z.eqb]; cbv beta iota zeta; wsimpl; try tail_done.
  all: mrun; tail_done.
Qed.

(** C9.  In every run the events added to the trace are: events that are
    neither docker compose invocations nor waits, followed by the teardown,
    the start of stack A, a wait of 15 seconds and the start of stack B, in
    that order and with nothing in between; a run that raises stops somewhere
    in this sequence, a run that returns has issued all of it. *)
Theorem startup_is_sequenced (a : args) (w : world) :
  exists before tail d,
    events (snd (main a w)) = events w ++ before ++ tail
    /\ Forall (fun e => sequencing e = false) before
    /\ tail `prefix_of` startup_sequence a d
    /\ (forall u, fst (main a w) = Ok u -> tail = startup_sequence a d).
Proof.
  revert w. change (startup_ordered a (main a)). unfold main.
  apply ordered_bind; [apply update_env_secrets_quiet|]. intros _.
  apply ordered_bind.
  { destruct (reset_db a); [|apply emits_ret].
    apply emits_bind; [apply clean_supabase_database_quiet|]. intros _. apply emits_ret. }
  intros _.
  apply ordered_bind; [apply clone_supabase_repo_quiet|]. intros _.
  apply ordered_bind; [apply prepare_supabase_env_quiet|]. intros _.
  apply ordered_bind; [apply generate_searxng_secret_key_quiet|]. intros _.
  apply ordered_bind; [apply check_and_fix_quiet|]. intros _.
  apply startup_tail_ordered.
Qed.
